(** * A shallow embedding of the WebSocket client and its message validator

    Sources embedded here:
    - [client/utils/message-validator.js]  (class MessageValidator)
    - [client/node/websocket-client.js] and its TypeScript twin
      [client/node/websocket-client.ts]    (class CloudflareWebSocketClient)

    JavaScript values are an inductive type, exceptions are a sum type, and
    the client is a record for the fields of [this] together with the part of
    the runtime its closures live in (promises, timers, sockets). *)

From Stdlib Require Import String Ascii List ZArith NArith Lia Bool.
From Stdlib Require Import PrimFloat Uint63 Decimal DecimalString.
Import ListNotations.
Open Scope string_scope.
Set Warnings "-register-all".

(* ------------------------------------------------------------------ *)
(** ** JavaScript values *)
(* ------------------------------------------------------------------ *)
Module JS.

(** Plain data as [JSON.parse] or an object literal produce it.  A number is
    an IEEE-754 double.  An object is the list of its own enumerable
    properties in enumeration order; an array is dense. *)
Inductive Value : Type :=
| Undefined
| Null
| Boolean (b : bool)
| Number (x : float)
| Str (s : string)
| Array (items : list Value)
| Object (props : list (string * Value)).

(** A computation that may [throw]: the message of the error is kept. *)
Inductive Result (A : Type) : Type :=
| Ret (a : A)
| Throw (msg : string).
Arguments Ret {A} a.
Arguments Throw {A} msg.

Definition bind {A B} (r : Result A) (k : A -> Result B) : Result B :=
  match r with
  | Ret a => k a
  | Throw msg => Throw msg
  end.

Notation "x <- r ;; k" := (bind r (fun x => k))
  (at level 61, r at next level, right associativity).

Inductive TypeTag := TUndefined | TObject | TBoolean | TNumber | TString.

(** [typeof v] *)
Definition typeof (v : Value) : TypeTag :=
  match v with
  | Undefined => TUndefined
  | Null | Array _ | Object _ => TObject
  | Boolean _ => TBoolean
  | Number _ => TNumber
  | Str _ => TString
  end.

Definition TypeTag_eqb (a b : TypeTag) : bool :=
  match a, b with
  | TUndefined, TUndefined | TObject, TObject | TBoolean, TBoolean
  | TNumber, TNumber | TString, TString => true
  | _, _ => false
  end.

Definition is_null (v : Value) : bool :=
  match v with Null => true | _ => false end.

Definition is_undefined (v : Value) : bool :=
  match v with Undefined => true | _ => false end.

(** [Array.isArray(v)] *)
Definition Array_isArray (v : Value) : bool :=
  match v with Array _ => true | _ => false end.

(** ToBoolean, as [if (v)], [!v] and [a && b] apply it. *)
Definition truthy (v : Value) : bool :=
  match v with
  | Undefined | Null => false
  | Boolean b => b
  | Number x => negb (PrimFloat.is_zero x || PrimFloat.is_nan x)
  | Str s => negb (s =? "")
  | Array _ | Object _ => true
  end.

(** [v === Str s], the only strict comparison the sources make on data. *)
Definition strict_eq_string (v : Value) (s : string) : bool :=
  match v with Str t => t =? s | _ => false end.

(** *** Property keys *)

(** A key is an array index when it is the canonical decimal spelling of an
    integer below 2^32 - 1. *)
Definition index_name (n : N) : string :=
  NilZero.string_of_uint (N.to_uint n).

Definition array_index (k : string) : option N :=
  match NilZero.uint_of_string k with
  | Some u =>
      let n := N.of_uint u in
      if (index_name n =? k) && (n <? 4294967295)%N then Some n else None
  | None => None
  end.

Fixpoint lookup {A} (k : string) (props : list (string * A)) : option A :=
  match props with
  | [] => None
  | (k', v) :: rest => if k' =? k then Some v else lookup k rest
  end.

Fixpoint replace {A} (k : string) (v : A) (props : list (string * A))
  : list (string * A) :=
  match props with
  | [] => []
  | (k', v') :: rest =>
      if k' =? k then (k', v) :: rest else (k', v') :: replace k v rest
  end.

(** Where a new index key goes: index keys enumerate first, ascending. *)
Fixpoint insert_index {A} (n : N) (k : string) (v : A)
  (props : list (string * A)) : list (string * A) :=
  match props with
  | [] => [(k, v)]
  | (k', v') :: rest =>
      match array_index k' with
      | Some m =>
          if (m <? n)%N then (k', v') :: insert_index n k v rest
          else (k, v) :: (k', v') :: rest
      | None => (k, v) :: (k', v') :: rest
      end
  end.

(** [obj[k] = v] on an ordinary object: an existing key keeps its place, a
    new index key is sorted in, any other new key goes last. *)
Definition set_property {A} (props : list (string * A)) (k : string) (v : A)
  : list (string * A) :=
  match lookup k props with
  | Some _ => replace k v props
  | None =>
      match array_index k with
      | Some n => insert_index n k v props
      | None => props ++ [(k, v)]
      end
  end.

Definition float_of_nat (n : nat) : float :=
  PrimFloat.of_uint63 (Uint63.of_Z (Z.of_nat n)).

Fixpoint chars (s : string) : list Value :=
  match s with
  | EmptyString => []
  | String c rest => Str (String c EmptyString) :: chars rest
  end.

(** The own properties of an array-like: its elements by index, and [length]. *)
Definition indexed_get (items : list Value) (k : string) : Value :=
  if k =? "length" then Number (float_of_nat (List.length items))
  else match array_index k with
       | Some i => nth (N.to_nat i) items Undefined
       | None => Undefined
       end.

Definition indexed_has (items : list Value) (k : string) : bool :=
  if k =? "length" then true
  else match array_index k with
       | Some i => (N.to_nat i <? List.length items)%nat
       | None => false
       end.

(** [v[k]] and [v.k], over own properties (members inherited from the
    built-in prototypes are not part of the data).  Reading a property of
    [null] or [undefined] is a TypeError. *)
Definition get (v : Value) (k : string) : Result Value :=
  match v with
  | Undefined | Null => Throw "Cannot read properties of null or undefined"
  | Boolean _ | Number _ => Ret Undefined
  | Str s => Ret (indexed_get (chars s) k)
  | Array items => Ret (indexed_get items k)
  | Object props =>
      Ret (match lookup k props with Some x => x | None => Undefined end)
  end.

(** [k in v], over own properties; a TypeError when [v] is not an object. *)
Definition has (k : string) (v : Value) : Result bool :=
  match v with
  | Array items => Ret (indexed_has items k)
  | Object props =>
      Ret (match lookup k props with Some _ => true | None => false end)
  | _ => Throw "Cannot use 'in' operator"
  end.

Fixpoint number_from {A} (i : N) (items : list A) : list (string * A) :=
  match items with
  | [] => []
  | x :: rest => (index_name i, x) :: number_from (N.succ i) rest
  end.

(** The own enumerable properties [{...v}] copies. *)
Definition own_enumerable (v : Value) : list (string * Value) :=
  match v with
  | Object props => props
  | Array items => number_from 0%N items
  | Str s => number_from 0%N (chars s)
  | _ => []
  end.

(** [{...v}] *)
Definition spread (v : Value) : list (string * Value) :=
  fold_left (fun o kv => set_property o (fst kv) (snd kv)) (own_enumerable v) [].

(** [s.endsWith('?')] and [s.slice(0, -1)] *)
Fixpoint endsWith (s : string) (c : ascii) : bool :=
  match s with
  | EmptyString => false
  | String a EmptyString => Ascii.eqb a c
  | String _ rest => endsWith rest c
  end.

Fixpoint slice_0_m1 (s : string) : string :=
  match s with
  | EmptyString => EmptyString
  | String _ EmptyString => EmptyString
  | String a rest => String a (slice_0_m1 rest)
  end.

End JS.
Import JS.

(* ------------------------------------------------------------------ *)
(** ** client/utils/message-validator.js *)
(* ------------------------------------------------------------------ *)
Module Validator.

(** One entry of [this.validationRules].  A validator is any function of
    [(message, context)]; what [validate] sees of its return value is its
    truthiness, or the error it threw. *)
Record RuleConfig := {
  validator : Value -> Value -> Result bool;
  required : bool;
  errorMessage : string
}.

(** An entry of [results.errors]. *)
Record ErrorEntry := {
  error_rule : string;
  error_message : string;
  error_required : bool
}.

(** An entry of [results.warnings]. *)
Record WarningEntry := {
  warning_rule : string;
  warning_message : string
}.

(** An entry of [this.stats.errors]. *)
Record LogEntry := {
  log_rule : string;
  log_message : string;
  log_timestamp : string
}.

Record Stats := {
  validated : nat;
  passed : nat;
  failed : nat;
  stats_errors : list LogEntry
}.

(** The object [validate] returns. *)
Record ValidationResult := {
  isValid : bool;
  errors : list ErrorEntry;
  warnings : list WarningEntry;
  context : Value
}.

Record MessageValidator := {
  validationRules : list (string * RuleConfig);
  responseHandlers : list (string * (Value -> Result Value));
  middleware : option (Value -> Value -> Result Value);
  stats : Stats
}.

Definition initial_stats : Stats :=
  {| validated := 0; passed := 0; failed := 0; stats_errors := [] |}.

(** [new MessageValidator(options)] *)
Definition constructor
  (rules : option (list (string * RuleConfig)))
  (handlers : option (list (string * (Value -> Result Value))))
  : MessageValidator :=
  {| validationRules := match rules with Some r => r | None => [] end;
     responseHandlers := match handlers with Some h => h | None => [] end;
     middleware := None;
     stats := initial_stats |}.

(** The [options] of [addRule]: each field may be left out. *)
Record RuleOptions := {
  opt_required : option bool;
  opt_errorMessage : option string
}.

Definition no_options : RuleOptions :=
  {| opt_required := None; opt_errorMessage := None |}.

(** [addRule(name, validatorFn, options = {})] *)
Definition addRule (name : string) (validatorFn : Value -> Value -> Result bool)
  (options : RuleOptions) (v : MessageValidator) : MessageValidator :=
  let config :=
    {| validator := validatorFn;
       required := match opt_required options with
                   | Some false => false
                   | _ => true
                   end;
       errorMessage := match opt_errorMessage options with
                       | Some m => if m =? "" then "Validation failed for rule: " ++ name else m
                       | None => "Validation failed for rule: " ++ name
                       end |} in
  {| validationRules := set_property (validationRules v) name config;
     responseHandlers := responseHandlers v;
     middleware := middleware v;
     stats := stats v |}.

(** [addHandler(type, handlerFn)] *)
Definition addHandler (type : string) (handlerFn : Value -> Result Value)
  (v : MessageValidator) : MessageValidator :=
  {| validationRules := validationRules v;
     responseHandlers := set_property (responseHandlers v) type handlerFn;
     middleware := middleware v;
     stats := stats v |}.

(** One turn of the [for ... of Object.entries(this.validationRules)] loop of
    [validate]; [now] is what [new Date().toISOString()] gives in this turn. *)
Definition validate_rule (message ctx : Value) (now : string)
  (ruleName : string) (ruleConfig : RuleConfig)
  (results : ValidationResult) (st : Stats) : ValidationResult * Stats :=
  match validator ruleConfig message ctx with
  | Ret true =>
      ({| isValid := isValid results && true;
          errors := errors results;
          warnings := warnings results;
          context := context results |}, st)
  | Ret false =>
      let results1 :=
        {| isValid := false;
           errors := errors results ++
                     [{| error_rule := ruleName;
                         error_message := errorMessage ruleConfig;
                         error_required := required ruleConfig |}];
           warnings := warnings results;
           context := context results |} in
      if required ruleConfig then
        (results1,
         {| validated := validated st;
            passed := passed st;
            failed := S (failed st);
            stats_errors := stats_errors st ++
                            [{| log_rule := ruleName;
                                log_message := errorMessage ruleConfig;
                                log_timestamp := now |}] |})
      else
        ({| isValid := isValid results1;
            errors := errors results1;
            warnings := warnings results1 ++
                        [{| warning_rule := ruleName;
                            warning_message := errorMessage ruleConfig |}];
            context := context results1 |}, st)
  | Throw msg =>
      ({| isValid := false;
          errors := errors results ++
                    [{| error_rule := ruleName;
                        error_message := "Validation rule error: " ++ msg;
                        error_required := required ruleConfig |}];
          warnings := warnings results;
          context := context results |}, st)
  end.

(** The whole loop; [clock i] is the time read in turn [i]. *)
Fixpoint validate_rules (message ctx : Value) (clock : nat -> string) (i : nat)
  (rules : list (string * RuleConfig))
  (results : ValidationResult) (st : Stats) : ValidationResult * Stats :=
  match rules with
  | [] => (results, st)
  | (ruleName, ruleConfig) :: rest =>
      let '(results', st') :=
        validate_rule message ctx (clock i) ruleName ruleConfig results st in
      validate_rules message ctx clock (S i) rest results' st'
  end.

(** [validate(message, context = {})] *)
Definition validate (message ctx : Value) (clock : nat -> string)
  (v : MessageValidator) : ValidationResult * MessageValidator :=
  let results0 :=
    {| isValid := true; errors := []; warnings := []; context := ctx |} in
  let '(results, st) :=
    validate_rules message ctx clock 0 (validationRules v) results0 (stats v) in
  let st1 :=
    {| validated := S (validated st);
       passed := passed st;
       failed := failed st;
       stats_errors := stats_errors st |} in
  let st2 :=
    if isValid results then
      {| validated := validated st1;
         passed := S (passed st1);
         failed := failed st1;
         stats_errors := stats_errors st1 |}
    else st1 in
  (results,
   {| validationRules := validationRules v;
      responseHandlers := responseHandlers v;
      middleware := middleware v;
      stats := st2 |}).

(** [useValidationMiddleware(middleware)] *)
Definition useValidationMiddleware (mw : Value -> Value -> Result Value)
  (v : MessageValidator) : MessageValidator :=
  {| validationRules := validationRules v;
     responseHandlers := responseHandlers v;
     middleware := Some mw;
     stats := stats v |}.

(** [validateWithMiddleware(message, context = {})] *)
Definition validateWithMiddleware (message ctx : Value) (clock : nat -> string)
  (v : MessageValidator) : ValidationResult * MessageValidator :=
  match middleware v with
  | Some mw =>
      match mw message ctx with
      | Ret processedMessage => validate processedMessage ctx clock v
      | Throw msg =>
          ({| isValid := false;
              errors := [{| error_rule := "middleware";
                            error_message := msg;
                            error_required := true |}];
              warnings := [];
              context := ctx |}, v)
      end
  | None => validate message ctx clock v
  end.

(** [getStats()]: a copy of the counters. *)
Definition getStats (v : MessageValidator) : Stats :=
  {| validated := validated (stats v);
     passed := passed (stats v);
     failed := failed (stats v);
     stats_errors := stats_errors (stats v) |}.

(** [resetStats()] *)
Definition resetStats (v : MessageValidator) : MessageValidator :=
  {| validationRules := validationRules v;
     responseHandlers := responseHandlers v;
     middleware := middleware v;
     stats := {| validated := 0; passed := 0; failed := 0; stats_errors := [] |} |}.

(** *** predefinedRules *)

Definition isString (message : Value) : bool :=
  TypeTag_eqb (typeof message) TString.

Definition isObject (message : Value) : bool :=
  TypeTag_eqb (typeof message) TObject && negb (is_null message)
  && negb (Array_isArray message).

Definition isArray (message : Value) : bool := Array_isArray message.

Definition isNumber (message : Value) : bool :=
  match message with
  | Number x => negb (PrimFloat.is_nan x)
  | _ => false
  end.

Definition isBoolean (message : Value) : bool :=
  TypeTag_eqb (typeof message) TBoolean.

(** A schema value: a function, or a nested schema object whose entries are
    [Object.entries(schema)] in order (a function has no entries). *)
Inductive Schema : Type :=
| Predicate (fn : Value -> Result bool)
| Nested (entries : list (string * Schema)).

(** [matchesSchema(schema)(message)] *)
Fixpoint matchesSchema (schema : Schema) (message : Value) {struct schema}
  : Result bool :=
  if negb (TypeTag_eqb (typeof message) TObject) || is_null message
  then Ret false
  else
    match schema with
    | Predicate _ => Ret true
    | Nested entries =>
        (fix loop (es : list (string * Schema)) : Result bool :=
           match es with
           | [] => Ret true
           | (key, validator) :: rest =>
               let check (field : Value) : Result bool :=
                 match validator with
                 | Predicate fn => fn field
                 | Nested _ => matchesSchema validator field
                 end in
               if endsWith key "?" then
                 (* Optional field *)
                 let actualKey := slice_0_m1 key in
                 present <- has actualKey message ;;
                 if present then
                   field <- get message actualKey ;;
                   if negb (is_undefined field) then
                     ok <- check field ;;
                     if negb ok then Ret false else loop rest
                   else loop rest
                 else loop rest
               else
                 (* Required field *)
                 present <- has key message ;;
                 if negb present then Ret false
                 else
                   field <- get message key ;;
                   ok <- check field ;;
                   if negb ok then Ret false else loop rest
           end) entries
    end.

End Validator.

(* ------------------------------------------------------------------ *)
(** ** client/node/websocket-client.js *)
(* ------------------------------------------------------------------ *)
Module Client.

(** The class is event driven: its methods return promises, and its
    listeners, timer callbacks and send callbacks run later, one at a time.
    The embedding keeps, next to the fields of [this], what those closures
    capture and wait for:
    - a promise is an index into the list of promise states, and [resolve]
      and [reject] name the promise they settle;
    - a closure is a value that lists what it captured (the interceptor of
      [sendWithAck], the [catch] block after its [await], the callback of a
      timer), so that two states can be compared;
    - what the client does to the outside (sockets made, [ws.send] and
      [ws.close] calls, application callbacks) is appended to a log;
    - what the outside does (method calls, socket events, send callbacks,
      timers firing, whether [ws.send] or [new WebSocket] throws) is an
      input.
    Numbers that come from the options are integers.  The TypeScript twin
    differs from the JavaScript file in the default URL only. *)

Definition PromiseId := nat.
Definition TimerId := nat.
Definition SocketId := nat.
Definition Token := nat.

(** What [ws.send] is handed: a string, a buffer, or the string
    [JSON.stringify(o)] of an object [o], kept as [o]. *)
Inductive Data : Type :=
| Text (s : string)
| Buffer (bytes : list ascii)
| Json (o : list (string * Value)).

(** What the ['message'] listener is handed: the text [data.toString()],
    with what [JSON.parse] makes of that text ([None]: it throws). *)
Record Incoming := {
  text : string;
  JSON_parse : option Value
}.

(** The function stored in [this.callbacks.onMessage]: the application's
    callback (or the no-op default), or the closure [sendWithAck] installs,
    which captures [messageId], [timeoutId], [resolve] and
    [originalOnMessage]. *)
Inductive Handler : Type :=
| UserOnMessage
| AckInterceptor (messageId : string) (timeoutId : TimerId)
    (resolve : PromiseId) (originalOnMessage : Handler).

Inductive PromiseState : Type :=
| Pending
| Fulfilled (v : Value)
| Rejected (msg : string).

(** The callback given to [setTimeout]. *)
Inductive TimerTask : Type :=
| AckTimeout (reject : PromiseId)
| Reconnect.

Record Timer := {
  timer_id : TimerId;
  timer_delay : Z;
  timer_task : TimerTask
}.

Record Stats := {
  sent : nat;
  received : nat;
  errors : nat;
  connections : nat;
  disconnections : nat
}.

(** An entry [{ message, resolve, reject }] of [this.messageQueue];
    [resolve] and [reject] belong to one promise. *)
Record QueueItem := {
  message : Data;
  completion : PromiseId
}.

(** What the client does to the world outside: the sockets it makes, the
    calls of [ws.send] (and whether the call returned rather than threw) and
    [ws.close], and the application callbacks it calls. *)
Inductive Effect : Type :=
| NewWebSocket (u : string) (s : SocketId)
| WsSend (s : SocketId) (m : Data) (accepted : bool)
| WsClose (s : SocketId)
| OnOpen
| OnClose (code : Z) (reason : string)
| OnError (msg : string)
| OnMessage (data : Incoming).

(** The [catch] block after [await this.send(payload)] in [sendWithAck],
    with what it captures: [timeoutId], [originalOnMessage], [reject]. *)
Record AckCatch := {
  catch_timeoutId : TimerId;
  catch_originalOnMessage : Handler;
  catch_reject : PromiseId
}.

(** The fields of [this], then the runtime the closures live in. *)
Record Client := {
  url : string;
  reconnectAttempts : Z;
  maxReconnectAttempts : Z;
  reconnectDelay : Z;
  autoReconnect : bool;
  ws : option SocketId;
  isConnected : bool;
  messageQueue : list QueueItem;
  stats : Stats;
  onMessage : Handler;
  (* runtime *)
  promises : list PromiseState;
  timers : list Timer;
  nextTimer : TimerId;
  sockets : list PromiseId;
  inflight : list (Token * PromiseId);
  sendCalls : nat;
  awaiting : list (PromiseId * AckCatch);
  jobs : list (AckCatch * string);
  log : list Effect
}.

(** The [options] of the constructor; every field may be left out. *)
Record Options := {
  opt_url : option string;
  opt_maxReconnectAttempts : option Z;
  opt_reconnectDelay : option Z;
  opt_autoReconnect : option bool
}.

Definition default_options : Options :=
  {| opt_url := None; opt_maxReconnectAttempts := None;
     opt_reconnectDelay := None; opt_autoReconnect := None |}.

(** [options.x || d] on a number *)
Definition or_default (x : option Z) (d : Z) : Z :=
  match x with
  | Some n => if (n =? 0)%Z then d else n
  | None => d
  end.

(** [new CloudflareWebSocketClient(options)] *)
Definition constructor (options : Options) : Client :=
  {| url := match opt_url options with
            | Some u => if u =? "" then "wss://localhost:8787/ws" else u
            | None => "wss://localhost:8787/ws"
            end;
     reconnectAttempts := 0;
     maxReconnectAttempts := or_default (opt_maxReconnectAttempts options) 5;
     reconnectDelay := or_default (opt_reconnectDelay options) 1000;
     autoReconnect := match opt_autoReconnect options with
                      | Some false => false
                      | _ => true
                      end;
     ws := None;
     isConnected := false;
     messageQueue := [];
     stats := {| sent := 0; received := 0; errors := 0;
                 connections := 0; disconnections := 0 |};
     onMessage := UserOnMessage;
     promises := []; timers := []; nextTimer := 0; sockets := [];
     inflight := []; sendCalls := 0; awaiting := []; jobs := []; log := [] |}.

(** Assignments to one field. *)
Definition set_reconnectAttempts (x : Z) (c : Client) : Client :=
  {| url := url c; reconnectAttempts := x;
     maxReconnectAttempts := maxReconnectAttempts c;
     reconnectDelay := reconnectDelay c; autoReconnect := autoReconnect c;
     ws := ws c; isConnected := isConnected c;
     messageQueue := messageQueue c; stats := stats c;
     onMessage := onMessage c; promises := promises c; timers := timers c;
     nextTimer := nextTimer c; sockets := sockets c; inflight := inflight c;
     sendCalls := sendCalls c; awaiting := awaiting c; jobs := jobs c;
     log := log c |}.

Definition set_ws (x : option SocketId) (c : Client) : Client :=
  {| url := url c; reconnectAttempts := reconnectAttempts c;
     maxReconnectAttempts := maxReconnectAttempts c;
     reconnectDelay := reconnectDelay c; autoReconnect := autoReconnect c;
     ws := x; isConnected := isConnected c; messageQueue := messageQueue c;
     stats := stats c; onMessage := onMessage c; promises := promises c;
     timers := timers c; nextTimer := nextTimer c; sockets := sockets c;
     inflight := inflight c; sendCalls := sendCalls c;
     awaiting := awaiting c; jobs := jobs c; log := log c |}.

Definition set_isConnected (x : bool) (c : Client) : Client :=
  {| url := url c; reconnectAttempts := reconnectAttempts c;
     maxReconnectAttempts := maxReconnectAttempts c;
     reconnectDelay := reconnectDelay c; autoReconnect := autoReconnect c;
     ws := ws c; isConnected := x; messageQueue := messageQueue c;
     stats := stats c; onMessage := onMessage c; promises := promises c;
     timers := timers c; nextTimer := nextTimer c; sockets := sockets c;
     inflight := inflight c; sendCalls := sendCalls c;
     awaiting := awaiting c; jobs := jobs c; log := log c |}.

Definition set_messageQueue (x : list QueueItem) (c : Client) : Client :=
  {| url := url c; reconnectAttempts := reconnectAttempts c;
     maxReconnectAttempts := maxReconnectAttempts c;
     reconnectDelay := reconnectDelay c; autoReconnect := autoReconnect c;
     ws := ws c; isConnected := isConnected c; messageQueue := x;
     stats := stats c; onMessage := onMessage c; promises := promises c;
     timers := timers c; nextTimer := nextTimer c; sockets := sockets c;
     inflight := inflight c; sendCalls := sendCalls c;
     awaiting := awaiting c; jobs := jobs c; log := log c |}.

Definition set_stats (x : Stats) (c : Client) : Client :=
  {| url := url c; reconnectAttempts := reconnectAttempts c;
     maxReconnectAttempts := maxReconnectAttempts c;
     reconnectDelay := reconnectDelay c; autoReconnect := autoReconnect c;
     ws := ws c; isConnected := isConnected c;
     messageQueue := messageQueue c; stats := x; onMessage := onMessage c;
     promises := promises c; timers := timers c; nextTimer := nextTimer c;
     sockets := sockets c; inflight := inflight c; sendCalls := sendCalls c;
     awaiting := awaiting c; jobs := jobs c; log := log c |}.

Definition set_onMessage (x : Handler) (c : Client) : Client :=
  {| url := url c; reconnectAttempts := reconnectAttempts c;
     maxReconnectAttempts := maxReconnectAttempts c;
     reconnectDelay := reconnectDelay c; autoReconnect := autoReconnect c;
     ws := ws c; isConnected := isConnected c;
     messageQueue := messageQueue c; stats := stats c; onMessage := x;
     promises := promises c; timers := timers c; nextTimer := nextTimer c;
     sockets := sockets c; inflight := inflight c; sendCalls := sendCalls c;
     awaiting := awaiting c; jobs := jobs c; log := log c |}.

Definition set_promises (x : list PromiseState) (c : Client) : Client :=
  {| url := url c; reconnectAttempts := reconnectAttempts c;
     maxReconnectAttempts := maxReconnectAttempts c;
     reconnectDelay := reconnectDelay c; autoReconnect := autoReconnect c;
     ws := ws c; isConnected := isConnected c;
     messageQueue := messageQueue c; stats := stats c;
     onMessage := onMessage c; promises := x; timers := timers c;
     nextTimer := nextTimer c; sockets := sockets c; inflight := inflight c;
     sendCalls := sendCalls c; awaiting := awaiting c; jobs := jobs c;
     log := log c |}.

Definition set_timers (x : list Timer) (c : Client) : Client :=
  {| url := url c; reconnectAttempts := reconnectAttempts c;
     maxReconnectAttempts := maxReconnectAttempts c;
     reconnectDelay := reconnectDelay c; autoReconnect := autoReconnect c;
     ws := ws c; isConnected := isConnected c;
     messageQueue := messageQueue c; stats := stats c;
     onMessage := onMessage c; promises := promises c; timers := x;
     nextTimer := nextTimer c; sockets := sockets c; inflight := inflight c;
     sendCalls := sendCalls c; awaiting := awaiting c; jobs := jobs c;
     log := log c |}.

Definition set_nextTimer (x : TimerId) (c : Client) : Client :=
  {| url := url c; reconnectAttempts := reconnectAttempts c;
     maxReconnectAttempts := maxReconnectAttempts c;
     reconnectDelay := reconnectDelay c; autoReconnect := autoReconnect c;
     ws := ws c; isConnected := isConnected c;
     messageQueue := messageQueue c; stats := stats c;
     onMessage := onMessage c; promises := promises c; timers := timers c;
     nextTimer := x; sockets := sockets c; inflight := inflight c;
     sendCalls := sendCalls c; awaiting := awaiting c; jobs := jobs c;
     log := log c |}.

Definition set_sockets (x : list PromiseId) (c : Client) : Client :=
  {| url := url c; reconnectAttempts := reconnectAttempts c;
     maxReconnectAttempts := maxReconnectAttempts c;
     reconnectDelay := reconnectDelay c; autoReconnect := autoReconnect c;
     ws := ws c; isConnected := isConnected c;
     messageQueue := messageQueue c; stats := stats c;
     onMessage := onMessage c; promises := promises c; timers := timers c;
     nextTimer := nextTimer c; sockets := x; inflight := inflight c;
     sendCalls := sendCalls c; awaiting := awaiting c; jobs := jobs c;
     log := log c |}.

Definition set_inflight (x : list (Token * PromiseId)) (c : Client) : Client :=
  {| url := url c; reconnectAttempts := reconnectAttempts c;
     maxReconnectAttempts := maxReconnectAttempts c;
     reconnectDelay := reconnectDelay c; autoReconnect := autoReconnect c;
     ws := ws c; isConnected := isConnected c;
     messageQueue := messageQueue c; stats := stats c;
     onMessage := onMessage c; promises := promises c; timers := timers c;
     nextTimer := nextTimer c; sockets := sockets c; inflight := x;
     sendCalls := sendCalls c; awaiting := awaiting c; jobs := jobs c;
     log := log c |}.

Definition set_sendCalls (x : nat) (c : Client) : Client :=
  {| url := url c; reconnectAttempts := reconnectAttempts c;
     maxReconnectAttempts := maxReconnectAttempts c;
     reconnectDelay := reconnectDelay c; autoReconnect := autoReconnect c;
     ws := ws c; isConnected := isConnected c;
     messageQueue := messageQueue c; stats := stats c;
     onMessage := onMessage c; promises := promises c; timers := timers c;
     nextTimer := nextTimer c; sockets := sockets c; inflight := inflight c;
     sendCalls := x; awaiting := awaiting c; jobs := jobs c; log := log c |}.

Definition set_awaiting (x : list (PromiseId * AckCatch)) (c : Client) : Client :=
  {| url := url c; reconnectAttempts := reconnectAttempts c;
     maxReconnectAttempts := maxReconnectAttempts c;
     reconnectDelay := reconnectDelay c; autoReconnect := autoReconnect c;
     ws := ws c; isConnected := isConnected c;
     messageQueue := messageQueue c; stats := stats c;
     onMessage := onMessage c; promises := promises c; timers := timers c;
     nextTimer := nextTimer c; sockets := sockets c; inflight := inflight c;
     sendCalls := sendCalls c; awaiting := x; jobs := jobs c;
     log := log c |}.

Definition set_jobs (x : list (AckCatch * string)) (c : Client) : Client :=
  {| url := url c; reconnectAttempts := reconnectAttempts c;
     maxReconnectAttempts := maxReconnectAttempts c;
     reconnectDelay := reconnectDelay c; autoReconnect := autoReconnect c;
     ws := ws c; isConnected := isConnected c;
     messageQueue := messageQueue c; stats := stats c;
     onMessage := onMessage c; promises := promises c; timers := timers c;
     nextTimer := nextTimer c; sockets := sockets c; inflight := inflight c;
     sendCalls := sendCalls c; awaiting := awaiting c; jobs := x;
     log := log c |}.

Definition set_log (x : list Effect) (c : Client) : Client :=
  {| url := url c; reconnectAttempts := reconnectAttempts c;
     maxReconnectAttempts := maxReconnectAttempts c;
     reconnectDelay := reconnectDelay c; autoReconnect := autoReconnect c;
     ws := ws c; isConnected := isConnected c;
     messageQueue := messageQueue c; stats := stats c;
     onMessage := onMessage c; promises := promises c; timers := timers c;
     nextTimer := nextTimer c; sockets := sockets c; inflight := inflight c;
     sendCalls := sendCalls c; awaiting := awaiting c; jobs := jobs c;
     log := x |}.

Definition emit (e : Effect) (c : Client) : Client :=
  set_log (log c ++ [e]) c.

Definition incr_sent (c : Client) : Client :=
  set_stats {| sent := S (sent (stats c)); received := received (stats c);
               errors := errors (stats c); connections := connections (stats c);
               disconnections := disconnections (stats c) |} c.

Definition incr_received (c : Client) : Client :=
  set_stats {| sent := sent (stats c); received := S (received (stats c));
               errors := errors (stats c); connections := connections (stats c);
               disconnections := disconnections (stats c) |} c.

Definition incr_errors (c : Client) : Client :=
  set_stats {| sent := sent (stats c); received := received (stats c);
               errors := S (errors (stats c)); connections := connections (stats c);
               disconnections := disconnections (stats c) |} c.

Definition incr_connections (c : Client) : Client :=
  set_stats {| sent := sent (stats c); received := received (stats c);
               errors := errors (stats c); connections := S (connections (stats c));
               disconnections := disconnections (stats c) |} c.

Definition incr_disconnections (c : Client) : Client :=
  set_stats {| sent := sent (stats c); received := received (stats c);
               errors := errors (stats c); connections := connections (stats c);
               disconnections := S (disconnections (stats c)) |} c.

(** *** Promises and timers *)

(** [new Promise(...)]: the new promise is the next index. *)
Definition new_promise (c : Client) : PromiseId * Client :=
  (List.length (promises c), set_promises (promises c ++ [Pending]) c).

Fixpoint update_nth {A} (n : nat) (x : A) (l : list A) : list A :=
  match l, n with
  | [], _ => []
  | _ :: rest, O => x :: rest
  | y :: rest, S m => y :: update_nth m x rest
  end.

Definition promise_state (p : PromiseId) (c : Client) : PromiseState :=
  nth p (promises c) Pending.

Definition take_awaiting (p : PromiseId) (l : list (PromiseId * AckCatch))
  : list AckCatch :=
  map snd (filter (fun e => Nat.eqb (fst e) p) l).

Definition drop_awaiting (p : PromiseId) (l : list (PromiseId * AckCatch))
  : list (PromiseId * AckCatch) :=
  filter (fun e => negb (Nat.eqb (fst e) p)) l.

(** [resolve(v)]: nothing happens on a promise already settled.  A
    continuation awaiting the promise in a [try] has nothing left to do. *)
Definition resolve (p : PromiseId) (v : Value) (c : Client) : Client :=
  match promise_state p c with
  | Pending =>
      set_awaiting (drop_awaiting p (awaiting c))
        (set_promises (update_nth p (Fulfilled v) (promises c)) c)
  | _ => c
  end.

(** [reject(error)]: nothing happens on a promise already settled.  A
    continuation awaiting the promise in a [try] is queued as a job, to resume
    in its [catch] block once the running handler has returned. *)
Definition reject (p : PromiseId) (msg : string) (c : Client) : Client :=
  match promise_state p c with
  | Pending =>
      set_jobs (jobs c ++ map (fun k => (k, msg)) (take_awaiting p (awaiting c)))
        (set_awaiting (drop_awaiting p (awaiting c))
           (set_promises (update_nth p (Rejected msg) (promises c)) c))
  | _ => c
  end.

(** [setTimeout(task, delay)] *)
Definition setTimeout (task : TimerTask) (delay : Z) (c : Client)
  : TimerId * Client :=
  (nextTimer c,
   set_nextTimer (S (nextTimer c))
     (set_timers (timers c ++ [{| timer_id := nextTimer c;
                                  timer_delay := delay;
                                  timer_task := task |}]) c)).

(** [clearTimeout(id)] *)
Definition clearTimeout (id : TimerId) (c : Client) : Client :=
  set_timers (filter (fun t => negb (Nat.eqb (timer_id t) id)) (timers c)) c.

Fixpoint lookup_token (tok : Token) (l : list (Token * PromiseId))
  : option PromiseId :=
  match l with
  | [] => None
  | (t, p) :: rest => if Nat.eqb t tok then Some p else lookup_token tok rest
  end.

Definition remove_token (tok : Token) (l : list (Token * PromiseId))
  : list (Token * PromiseId) :=
  filter (fun e => negb (Nat.eqb (fst e) tok)) l.

(** *** The methods *)

Section Methods.

(** The socket library decides whether a call of [ws.send] throws:
    [ws_send_throws n] is the error thrown by the [n]-th call made, if any. *)
Variable ws_send_throws : nat -> option string.

(** [_sendMessage(message, resolve, reject)].  When [ws.send] returns, its
    callback is in flight under a token until the socket calls it. *)
Definition _sendMessage (m : Data) (p : PromiseId) (c : Client) : Client :=
  match ws c with
  | None => reject p "Cannot read properties of null" (incr_errors c)
  | Some s =>
      let n := sendCalls c in
      match ws_send_throws n with
      | Some msg =>
          reject p msg
            (incr_errors (emit (WsSend s m false) (set_sendCalls (S n) c)))
      | None =>
          set_inflight (inflight c ++ [(n, p)])
            (emit (WsSend s m true) (set_sendCalls (S n) c))
      end
  end.

(** The callback given to [ws.send], called by the socket with [error]. *)
Definition send_callback (tok : Token) (error : option string) (c : Client)
  : Client :=
  match lookup_token tok (inflight c) with
  | None => c
  | Some p =>
      let c1 := set_inflight (remove_token tok (inflight c)) c in
      match error with
      | Some msg => reject p msg (incr_errors c1)
      | None => resolve p Undefined (incr_sent c1)
      end
  end.

(** [send(message, options = {})]; [queue] is [options.queue]. *)
Definition send (m : Data) (queue : option bool) (c : Client)
  : PromiseId * Client :=
  let '(p, c1) := new_promise c in
  match ws c1, isConnected c1 with
  | Some _, true => (p, _sendMessage m p c1)
  | _, _ =>
      match queue with
      | Some false => (p, reject p "WebSocket is not connected" c1)
      | _ =>
          (p, set_messageQueue
                (messageQueue c1 ++ [{| message := m; completion := p |}]) c1)
      end
  end.

(** [connect()]; [thrown] is the error [new WebSocket(this.url)] throws, if
    any.  The four listeners are registered on the new socket, which is
    remembered with the promise they settle. *)
Definition connect (thrown : option string) (c : Client) : PromiseId * Client :=
  let '(p, c1) := new_promise c in
  match thrown with
  | Some msg => (p, reject p msg c1)
  | None =>
      let s := List.length (sockets c1) in
      (p, incr_connections
            (set_sockets (sockets c1 ++ [p])
               (emit (NewWebSocket (url c1) s) (set_ws (Some s) c1))))
  end.

(** [_attemptReconnect()] *)
Definition _attemptReconnect (c : Client) : Client :=
  let c1 := set_reconnectAttempts (reconnectAttempts c + 1)%Z c in
  snd (setTimeout Reconnect (reconnectDelay c1) c1).

(** The [while (this.messageQueue.length > 0)] loop of the ['open'] listener:
    each turn shifts the first entry off the queue and sends it.  Sending
    leaves the queue alone, so the loop takes one turn for each entry. *)
Fixpoint flush (queue : list QueueItem) (c : Client) : Client :=
  match queue with
  | [] => c
  | item :: rest =>
      flush rest
        (_sendMessage (message item) (completion item)
           (set_messageQueue rest c))
  end.

(** The ['open'] listener of the socket made by the [connect()] call whose
    promise is [p]. *)
Definition on_open (p : PromiseId) (c : Client) : Client :=
  let c1 := set_reconnectAttempts 0%Z (set_isConnected true c) in
  let c2 := flush (messageQueue c1) c1 in
  resolve p Undefined (emit OnOpen c2).

(** The ['close'] listener. *)
Definition on_close (code : Z) (reason : string) (c : Client) : Client :=
  let c1 := emit (OnClose code reason)
              (incr_disconnections (set_isConnected false c)) in
  if autoReconnect c1
     && (reconnectAttempts c1 <? maxReconnectAttempts c1)%Z
  then _attemptReconnect c1
  else c1.

(** The ['error'] listener. *)
Definition on_error (p : PromiseId) (msg : string) (c : Client) : Client :=
  reject p msg (emit (OnError msg) (incr_errors c)).

(** Calling the function [h] stored in [this.callbacks.onMessage] on [data].
    In the interceptor, the [try] body throws when [JSON.parse] does, or when
    reading [.ack] of [null] does; the [catch] block then calls
    [originalOnMessage], which is a function and so truthy. *)
Fixpoint call_onMessage (h : Handler) (data : Incoming) (c : Client) : Client :=
  match h with
  | UserOnMessage => emit (OnMessage data) c
  | AckInterceptor messageId timeoutId resolve_ originalOnMessage =>
      match JSON_parse data with
      | None => call_onMessage originalOnMessage data c
      | Some parsedData =>
          let test :=
            ack <- get parsedData "ack" ;;
            if truthy ack then
              id <- get parsedData "id" ;;
              Ret (strict_eq_string id messageId)
            else Ret false in
          match test with
          | Ret true =>
              resolve resolve_ parsedData
                (set_onMessage originalOnMessage (clearTimeout timeoutId c))
          | Ret false => c
          | Throw _ => call_onMessage originalOnMessage data c
          end
      end
  end.

(** The ['message'] listener. *)
Definition on_message (data : Incoming) (c : Client) : Client :=
  let c1 := incr_received c in
  call_onMessage (onMessage c1) data c1.

(** The [catch] block of [sendWithAck], run with the [error] of the send. *)
Definition run_catch (k : AckCatch) (error : string) (c : Client) : Client :=
  reject (catch_reject k) error
    (set_onMessage (catch_originalOnMessage k)
       (clearTimeout (catch_timeoutId k) c)).

(** [await p] inside the [try] of [sendWithAck]. *)
Definition await (p : PromiseId) (k : AckCatch) (c : Client) : Client :=
  match promise_state p c with
  | Pending => set_awaiting (awaiting c ++ [(p, k)]) c
  | Fulfilled _ => c
  | Rejected msg => set_jobs (jobs c ++ [(k, msg)]) c
  end.

(** The payload [sendWithAck] builds from [message] and [messageId]. *)
Definition ack_payload (msg : Value) (messageId : string) : Data :=
  match msg with
  | Str s => Text s
  | _ => Json (set_property (spread msg) "id" (Str messageId))
  end.

(** [sendWithAck(message, timeout = 5000)]; [now] and [random] are the
    renderings of [Date.now()] and [Math.random()]. *)
Definition sendWithAck (msg : Value) (timeout : option Z)
  (now random : string) (c : Client) : PromiseId * Client :=
  let '(p, c0) := new_promise c in
  let messageId := "msg_" ++ now ++ "_" ++ random in
  let payload := ack_payload msg messageId in
  let '(timeoutId, c1) :=
    setTimeout (AckTimeout p)
      (match timeout with Some t => t | None => 5000%Z end) c0 in
  let originalOnMessage := onMessage c1 in
  let c2 :=
    set_onMessage (AckInterceptor messageId timeoutId p originalOnMessage) c1 in
  let '(q, c3) := send payload None c2 in
  (p, await q {| catch_timeoutId := timeoutId;
                 catch_originalOnMessage := originalOnMessage;
                 catch_reject := p |} c3).

(** [disconnect()] *)
Definition disconnect (c : Client) : Client :=
  match ws c with
  | Some s => set_isConnected false (emit (WsClose s) c)
  | None => c
  end.

(** A timer fires: it is disarmed, and its callback runs.  [thrown] is for
    the [connect()] the reconnection callback may reach. *)
Definition timer_fires (id : TimerId) (thrown : option string) (c : Client)
  : Client :=
  match find (fun t => Nat.eqb (timer_id t) id) (timers c) with
  | None => c
  | Some t =>
      let c1 := clearTimeout id c in
      match timer_task t with
      | AckTimeout p => reject p "Message acknowledgment timeout" c1
      | Reconnect =>
          if (reconnectAttempts c1 <=? maxReconnectAttempts c1)%Z
          then snd (connect thrown c1)
          else c1
      end
  end.

(** *** The event loop *)

(** What can happen to a client: the application calls a method, a socket
    emits an event or calls back a send, a timer fires. *)
Inductive Event : Type :=
| Call_connect (thrown : option string)
| Call_send (m : Data) (queue : option bool)
| Call_sendWithAck (msg : Value) (timeout : option Z) (now random : string)
| Call_disconnect
| Socket_open (s : SocketId)
| Socket_close (s : SocketId) (code : Z) (reason : string)
| Socket_error (s : SocketId) (msg : string)
| Socket_message (s : SocketId) (data : Incoming)
| Send_callback (tok : Token) (error : option string)
| Timer_fires (id : TimerId) (thrown : option string).

(** The handler of one event.  A socket the client never made has no
    listeners. *)
Definition handle (e : Event) (c : Client) : Client :=
  match e with
  | Call_connect thrown => snd (connect thrown c)
  | Call_send m queue => snd (send m queue c)
  | Call_sendWithAck msg timeout now random =>
      snd (sendWithAck msg timeout now random c)
  | Call_disconnect => disconnect c
  | Socket_open s =>
      match nth_error (sockets c) s with
      | Some p => on_open p c
      | None => c
      end
  | Socket_close s code reason =>
      match nth_error (sockets c) s with
      | Some _ => on_close code reason c
      | None => c
      end
  | Socket_error s msg =>
      match nth_error (sockets c) s with
      | Some p => on_error p msg c
      | None => c
      end
  | Socket_message s data =>
      match nth_error (sockets c) s with
      | Some _ => on_message data c
      | None => c
      end
  | Send_callback tok error => send_callback tok error c
  | Timer_fires id thrown => timer_fires id thrown c
  end.

(** The jobs queued while the handler ran are run in order until none is
    left.  A job may queue further jobs, one for each continuation awaiting
    the promise it rejects, so the number of jobs and awaiting continuations
    bounds the number of turns. *)
Fixpoint drain (fuel : nat) (c : Client) : Client :=
  match fuel, jobs c with
  | S fuel', j :: rest =>
      drain fuel' (run_catch (fst j) (snd j) (set_jobs rest c))
  | _, _ => c
  end.

Definition run_jobs (c : Client) : Client :=
  drain (List.length (jobs c) + List.length (awaiting c)) c.

(** One turn of the event loop. *)
Definition step (c : Client) (e : Event) : Client :=
  run_jobs (handle e c).

Definition run (es : list Event) (c : Client) : Client :=
  fold_left step es c.

End Methods.

End Client.

(* ------------------------------------------------------------------ *)
(** ** The validator: rules, operations and example inputs *)
(* ------------------------------------------------------------------ *)
Module ValidatorSpec.
Import Validator.

(** How one rule fares on a message. *)
Definition passes (message ctx : Value) (e : string * RuleConfig) : bool :=
  match validator (snd e) message ctx with Ret true => true | _ => false end.

Definition returns_falsy (message ctx : Value) (e : string * RuleConfig) : bool :=
  match validator (snd e) message ctx with Ret false => true | _ => false end.

Definition error_of (message ctx : Value) (e : string * RuleConfig) : ErrorEntry :=
  {| error_rule := fst e;
     error_message :=
       match validator (snd e) message ctx with
       | Throw msg => "Validation rule error: " ++ msg
       | Ret _ => errorMessage (snd e)
       end;
     error_required := required (snd e) |}.

Definition warning_of (e : string * RuleConfig) : WarningEntry :=
  {| warning_rule := fst e; warning_message := errorMessage (snd e) |}.

(** The operations of a validator, and the validator each leaves.
    [getStats], [handleResponse], [defaultResponseHandler] and
    [transformMessage] read [this] and return a value; they assign to no
    field. *)
Inductive Op : Type :=
| Op_addRule (name : string) (fn : Value -> Value -> Result bool)
    (options : RuleOptions)
| Op_addHandler (type : string) (fn : Value -> Result Value)
| Op_validate (message ctx : Value) (clock : nat -> string)
| Op_useValidationMiddleware (mw : Value -> Value -> Result Value)
| Op_validateWithMiddleware (message ctx : Value) (clock : nat -> string)
| Op_getStats
| Op_handleResponse (message : Value) (responseType : string)
| Op_defaultResponseHandler (message : Value)
| Op_transformMessage (message : Value)
    (transformations : list (Value -> Result Value))
| Op_resetStats.

Definition exec (op : Op) (v : MessageValidator) : MessageValidator :=
  match op with
  | Op_addRule name fn options => addRule name fn options v
  | Op_addHandler type fn => addHandler type fn v
  | Op_validate message ctx clock => snd (validate message ctx clock v)
  | Op_useValidationMiddleware mw => useValidationMiddleware mw v
  | Op_validateWithMiddleware message ctx clock =>
      snd (validateWithMiddleware message ctx clock v)
  | Op_getStats => v
  | Op_handleResponse _ _ => v
  | Op_defaultResponseHandler _ => v
  | Op_transformMessage _ _ => v
  | Op_resetStats => resetStats v
  end.

Definition is_reset (op : Op) : bool :=
  match op with Op_resetStats => true | _ => false end.

(** *** The schema rule, as it is described *)

(** [typeof message === 'object' && message !== null] *)
Definition is_object (message : Value) : bool :=
  TypeTag_eqb (typeof message) TObject && negb (is_null message).

(** [key in message] and [message[key]] on an object. *)
Definition present (key : string) (message : Value) : bool :=
  match has key message with Ret b => b | Throw _ => false end.

Definition field (key : string) (message : Value) : Value :=
  match get message key with Ret v => v | Throw _ => Undefined end.

(** The verdict of a predicate, a throw counting as a failure. *)
Definition holds (fn : Value -> Result bool) (v : Value) : bool :=
  match fn v with Ret b => b | Throw _ => false end.

(** A schema none of whose predicates throws. *)
Inductive total : Schema -> Prop :=
| total_Predicate (fn : Value -> Result bool) :
    (forall v, exists b, fn v = Ret b) -> total (Predicate fn)
| total_Nested (entries : list (string * Schema)) :
    Forall (fun e => total (snd e)) entries -> total (Nested entries).

(** What the schema rule is said to check, read on objects in the sense of
    [typeof] (arrays included): every key declared without ['?'] is present
    and its field passes the nested validator, and every key declared with
    ['?'] is absent, undefined, or passes. *)
Fixpoint accepts (schema : Schema) (message : Value) {struct schema} : bool :=
  is_object message
  && match schema with
     | Predicate _ => true
     | Nested entries =>
         (fix all (es : list (string * Schema)) : bool :=
            match es with
            | [] => true
            | (key, validator) :: rest =>
                let passes_field (v : Value) : bool :=
                  match validator with
                  | Predicate fn => holds fn v
                  | Nested _ => accepts validator v
                  end in
                (if endsWith key "?" then
                   let actualKey := slice_0_m1 key in
                   negb (present actualKey message)
                   || is_undefined (field actualKey message)
                   || passes_field (field actualKey message)
                 else
                   present key message && passes_field (field key message))
                && all rest
            end) entries
     end.

(** Induction on a schema and, for a nested one, on each of its entries. *)
Section Schema_induction.
Variable P : Schema -> Prop.
Hypothesis P_Predicate : forall fn, P (Predicate fn).
Hypothesis P_Nested :
  forall entries, Forall (fun e => P (snd e)) entries -> P (Nested entries).

Fixpoint Schema_induction (schema : Schema) : P schema :=
  match schema with
  | Predicate fn => P_Predicate fn
  | Nested entries =>
      P_Nested entries
        ((fix go (es : list (string * Schema))
            : Forall (fun e => P (snd e)) es :=
            match es with
            | [] => Forall_nil _
            | (key, validator) :: rest =>
                Forall_cons (key, validator) (Schema_induction validator) (go rest)
            end) entries)
  end.
End Schema_induction.

(** *** Example inputs *)

(** The schema [{id: isNumber, name: isString}] and the two messages of the
    specification's example; a validator with the one rule [matchesSchema]. *)
Definition id_name_schema : Schema :=
  Nested [("id", Predicate (fun x => Ret (isNumber x)));
          ("name", Predicate (fun x => Ret (isString x)))].

Definition schema_validator (schema : Schema) : MessageValidator :=
  addRule "matchesSchema" (fun message _ => matchesSchema schema message)
    no_options (constructor None None).

Definition good_message : Value :=
  Object [("id", Number 1); ("name", Str "a")].

Definition bad_message : Value := Object [("id", Str "x")].

(** A schema with one optional field, [{"name?": isString}], and an array. *)
Definition optional_name_schema : Schema :=
  Nested [("name?", Predicate (fun x => Ret (isString x)))].

Definition an_array : Value := Array [Number 1; Number 2].

(** A validator whose only rule is optional and fails on every message. *)
Definition optional_only : MessageValidator :=
  addRule "advice" (fun _ _ => Ret false)
    {| opt_required := Some false; opt_errorMessage := None |}
    (constructor None None).

Definition fixed_clock : nat -> string := fun _ => "2024-01-01T00:00:00.000Z".

End ValidatorSpec.

(* ------------------------------------------------------------------ *)
(** ** The client: observations, well-formed states and example runs *)
(* ------------------------------------------------------------------ *)
Module ClientSpec.
Import Client.

(** *** What is observed of a run *)

(** The messages handed to [ws.send], in call order; and those of the calls
    that returned. *)
Definition ws_sends (l : list Effect) : list Data :=
  flat_map (fun e => match e with WsSend _ m _ => [m] | _ => [] end) l.

Definition transmitted (l : list Effect) : list Data :=
  flat_map (fun e => match e with WsSend _ m true => [m] | _ => [] end) l.


(** The number of interceptors stacked on the application's callback. *)
Fixpoint depth (h : Handler) : nat :=
  match h with
  | UserOnMessage => 0
  | AckInterceptor _ _ _ original => S (depth original)
  end.

(** [this.ws && this.isConnected], the test of [send]. *)
Definition is_open (c : Client) : bool :=
  match ws c, isConnected c with
  | Some _, true => true
  | _, _ => false
  end.

(** [options.queue !== false] *)
Definition queue_enabled (queue : option bool) : bool :=
  match queue with Some false => false | _ => true end.

(** Whether a call of [ws.send] returned. *)
Definition returned (r : option string) : bool :=
  match r with None => true | Some _ => false end.

(** Calling [send] on each [(message, options.queue)] in turn. *)
Definition send_all (ws_send_throws : nat -> option string)
  (sends : list (Data * option bool)) (c : Client) : Client :=
  fold_left (fun c' x => snd (send ws_send_throws (fst x) (snd x) c')) sends c.

(** What the flush of [queue] adds to the log, from call number [n] on. *)
Fixpoint flush_effects (ws_send_throws : nat -> option string)
  (s : SocketId) (n : nat) (queue : list QueueItem) : list Effect :=
  match queue with
  | [] => []
  | item :: rest =>
      WsSend s (message item) (returned (ws_send_throws n))
      :: flush_effects ws_send_throws s (S n) rest
  end.


Definition is_ws_send (e : Effect) : bool :=
  match e with WsSend _ _ _ => true | _ => false end.

Definition is_socket_open (e : Event) : bool :=
  match e with Socket_open _ => true | _ => false end.

Definition is_fulfilled (s : PromiseState) : bool :=
  match s with Fulfilled _ => true | _ => false end.

(** *** Well-formed states *)

(** Whether [h], or a handler it wraps, resolves the promise [p]. *)
Fixpoint resolves (p : PromiseId) (h : Handler) : bool :=
  match h with
  | UserOnMessage => false
  | AckInterceptor _ _ q original => Nat.eqb q p || resolves p original
  end.

(** Every promise [h] resolves is below [n]. *)
Fixpoint handler_bounded (n : nat) (h : Handler) : bool :=
  match h with
  | UserOnMessage => true
  | AckInterceptor _ _ q original => (q <? n)%nat && handler_bounded n original
  end.

(** A state between two turns of the event loop: the promises and timers
    that closures, queue entries and sockets hold have been created, and no
    job is left. *)
Definition wf (c : Client) : bool :=
  forallb (fun t => (timer_id t <? nextTimer c)%nat) (timers c)
  && forallb (fun e => (fst e <? List.length (promises c))%nat
                       && handler_bounded (List.length (promises c))
                            (catch_originalOnMessage (snd e)))
       (awaiting c)
  && forallb (fun p => (p <? List.length (promises c))%nat) (sockets c)
  && forallb (fun e => (snd e <? List.length (promises c))%nat) (inflight c)
  && forallb (fun i => (completion i <? List.length (promises c))%nat)
       (messageQueue c)
  && handler_bounded (List.length (promises c)) (onMessage c)
  && match ws c with
     | Some _ => true
     | None => negb (isConnected c)
               && match sockets c with [] => true | _ => false end
     end
  && match jobs c with [] => true | _ => false end.

(** The same, while a handler runs and jobs may be queued. *)
Record sound (c : Client) : Prop := {
  sound_timers : forall t, In t (timers c) -> timer_id t < nextTimer c;
  sound_awaiting :
    forall e, In e (awaiting c) ->
              fst e < List.length (promises c)
              /\ handler_bounded (List.length (promises c))
                   (catch_originalOnMessage (snd e)) = true;
  sound_jobs :
    forall j, In j (jobs c) ->
              handler_bounded (List.length (promises c))
                (catch_originalOnMessage (fst j)) = true;
  sound_sockets : forall q, In q (sockets c) -> q < List.length (promises c);
  sound_inflight :
    forall e, In e (inflight c) -> snd e < List.length (promises c);
  sound_queue :
    forall i, In i (messageQueue c) -> completion i < List.length (promises c);
  sound_handler :
    handler_bounded (List.length (promises c)) (onMessage c) = true;
  sound_ws : ws c = None -> sockets c = [] /\ isConnected c = false
}.

(** The states a client goes through from its construction. *)
Definition reachable (ws_send_throws : nat -> option string) (c : Client)
  : Prop :=
  exists (options : Options) (es : list Event),
    c = run ws_send_throws es (constructor options).

(** *** The promise of a queued send *)

(** [m] was handed to [ws.send], in a call that returned, after the first
    [n0] effects of the log. *)
Definition sent_since (m : Data) (n0 : nat) (c : Client) : Prop :=
  exists s, In (WsSend s m true) (skipn n0 (log c)).

(** The promise [p] of a [send(m)] is held by the entry of the queue, or by
    the callback of the [ws.send] that transmitted [m], and by nothing else:
    no socket and no interceptor resolves it. *)
Record owned (m : Data) (p : PromiseId) (n0 : nat) (c : Client) : Prop := {
  owned_allocated : p < List.length (promises c);
  owned_log : n0 <= List.length (log c);
  owned_sockets : ~ In p (sockets c);
  owned_handler : resolves p (onMessage c) = false;
  owned_awaiting :
    forall e, In e (awaiting c) ->
              resolves p (catch_originalOnMessage (snd e)) = false;
  owned_jobs :
    forall j, In j (jobs c) ->
              resolves p (catch_originalOnMessage (fst j)) = false;
  owned_queue :
    forall i, In i (messageQueue c) -> completion i = p -> message i = m;
  owned_state :
    sent_since m n0 c
    \/ (is_fulfilled (promise_state p c) = false
        /\ forall tok, ~ In (tok, p) (inflight c))
}.

(** While no socket opens, the connection stays closed, nothing is handed
    to [ws.send] after the first [n0] effects of the log, and the entry
    [item] stays in the queue. *)
Record waiting (item : QueueItem) (n0 : nat) (c : Client) : Prop := {
  waiting_closed : isConnected c = false;
  waiting_log : n0 <= List.length (log c);
  waiting_silent : ws_sends (skipn n0 (log c)) = [];
  waiting_queued : In item (messageQueue c)
}.

(** *** Example runs *)

(** A socket library whose [ws.send] never throws. *)
Definition never_throws : nat -> option string := fun _ => None.

(** [quoted s] is [s] between double quotes. *)
Definition quoted (s : string) : string :=
  String (ascii_of_nat 34) s ++ String (ascii_of_nat 34) EmptyString.

(** The frame [{"type":"chat","id":"other"}], and a frame that is not JSON. *)
Definition chat_frame : Incoming :=
  {| text := "{" ++ quoted "type" ++ ":" ++ quoted "chat" ++ ","
                 ++ quoted "id" ++ ":" ++ quoted "other" ++ "}";
     JSON_parse := Some (Object [("type", Str "chat"); ("id", Str "other")]) |}.

Definition plain_frame : Incoming :=
  {| text := "hello"; JSON_parse := None |}.

(** The acknowledgment of the message with id [msg_1_0.5]. *)
Definition ack_frame : Incoming :=
  {| text := "{" ++ quoted "ack" ++ ":true," ++ quoted "id" ++ ":"
                 ++ quoted "msg_1_0.5" ++ "}";
     JSON_parse :=
       Some (Object [("ack", Boolean true); ("id", Str "msg_1_0.5")]) |}.

(** A client that called [connect()] and waits for the socket to open. *)
Definition connecting_client : Client :=
  snd (connect None (constructor default_options)).

(** A client that connected, saw the socket open, and has then called
    [sendWithAck({a: null})] at time 1 with random number 0.5. *)
Definition open_client : Client :=
  run never_throws [Call_connect None; Socket_open 0]
    (constructor default_options).

Definition waiting_client : Client :=
  step never_throws open_client
    (Call_sendWithAck (Object [("a", Null)]) None "1" "0.5").




(** Three payloads to enqueue. *)
Definition A_B_C : list (Data * option bool) :=
  [(Text "A", None); (Text "B", Some true); (Text "C", None)].

End ClientSpec.

(* ------------------------------------------------------------------ *)
(** ** The validator: what [validate] computes *)
(* ------------------------------------------------------------------ *)
Module ValidatorFacts.
Import Validator ValidatorSpec.

(** *** The loop of [validate] *)

Lemma validate_rule_spec (message ctx : Value) (now : string)
  (e : string * RuleConfig) (results : ValidationResult) (st : Stats) :
  let out := validate_rule message ctx now (fst e) (snd e) results st in
  isValid (fst out) = isValid results && passes message ctx e
  /\ errors (fst out) =
       (errors results ++ (if passes message ctx e then [] else [error_of message ctx e]))%list
  /\ warnings (fst out) =
       (warnings results ++
        (if returns_falsy message ctx e && negb (required (snd e))
         then [warning_of e] else []))%list
  /\ context (fst out) = context results
  /\ validated (snd out) = validated st
  /\ passed (snd out) = passed st
  /\ failed (snd out) =
       failed st + (if returns_falsy message ctx e && required (snd e) then 1 else 0)
  /\ exists more, stats_errors (snd out) = (stats_errors st ++ more)%list.
Proof.
  unfold validate_rule, passes, returns_falsy, error_of, warning_of.
  destruct (validator (snd e) message ctx) as [[|]|msg];
    [ | destruct (required (snd e)) | ]; cbn;
    rewrite ?andb_true_r, ?andb_false_r, ?app_nil_r, ?Nat.add_0_r, ?Nat.add_1_r;
    repeat split; trivial;
    first [ exists []; now rewrite app_nil_r | eexists; reflexivity ].
Qed.

Lemma validate_rules_spec (message ctx : Value) (clock : nat -> string)
  (rules : list (string * RuleConfig)) :
  forall (i : nat) (results : ValidationResult) (st : Stats),
    let out := validate_rules message ctx clock i rules results st in
    isValid (fst out) = isValid results && forallb (passes message ctx) rules
    /\ errors (fst out) =
         (errors results ++
          map (error_of message ctx)
            (filter (fun e => negb (passes message ctx e)) rules))%list
    /\ warnings (fst out) =
         (warnings results ++
          map warning_of
            (filter (fun e => returns_falsy message ctx e && negb (required (snd e)))
               rules))%list
    /\ context (fst out) = context results
    /\ validated (snd out) = validated st
    /\ passed (snd out) = passed st
    /\ failed (snd out) =
         failed st +
         List.length
           (filter (fun e => returns_falsy message ctx e && required (snd e)) rules)
    /\ exists more, stats_errors (snd out) = (stats_errors st ++ more)%list.
Proof.
  induction rules as [|e rest IH]; intros i results st.
  - cbn. rewrite andb_true_r, !app_nil_r, Nat.add_0_r.
    repeat split; trivial. exists []. now rewrite app_nil_r.
  - cbn [validate_rules]. destruct e as [ruleName ruleConfig].
    pose proof (validate_rule_spec message ctx (clock i) (ruleName, ruleConfig) results st) as S1.
    cbn [fst snd] in S1.
    destruct (validate_rule message ctx (clock i) ruleName ruleConfig results st)
      as [results1 st1].
    cbn [fst snd] in S1.
    destruct S1 as (A1 & A2 & A3 & A4 & A5 & A6 & A7 & more1 & A8).
    destruct (IH (S i) results1 st1) as (I1 & I2 & I3 & I4 & I5 & I6 & I7 & more & I8).
    cbn zeta. rewrite I1, I2, I3, I4, I5, I6, I7, I8, A1, A2, A3, A4, A5, A6, A7, A8.
    cbn [forallb filter].
    repeat split; trivial.
    + now rewrite andb_assoc.
    + rewrite <- app_assoc. f_equal.
      destruct (passes message ctx (ruleName, ruleConfig)); reflexivity.
    + rewrite <- app_assoc. f_equal. cbn [snd].
      destruct (returns_falsy message ctx (ruleName, ruleConfig)),
        (required ruleConfig); reflexivity.
    + cbn [snd].
      destruct (returns_falsy message ctx (ruleName, ruleConfig)),
        (required ruleConfig); cbn [andb List.length]; lia.
    + exists (more1 ++ more)%list. now rewrite app_assoc.
Qed.

Lemma validate_stats (message ctx : Value) (clock : nat -> string)
  (v : MessageValidator) :
  let out := validate message ctx clock v in
  validated (stats (snd out)) = S (validated (stats v))
  /\ passed (stats (snd out)) =
       passed (stats v) + (if isValid (fst out) then 1 else 0)
  /\ failed (stats v) <= failed (stats (snd out))
  /\ exists more,
       stats_errors (stats (snd out)) = (stats_errors (stats v) ++ more)%list.
Proof.
  unfold validate.
  pose proof (validate_rules_spec message ctx clock (validationRules v) 0
    {| isValid := true; errors := []; warnings := []; context := ctx |}
    (stats v)) as H.
  destruct (validate_rules message ctx clock 0 (validationRules v) _ (stats v))
    as [results st].
  cbn [fst snd] in *.
  destruct H as (_ & _ & _ & _ & V & P & F & more & L).
  destruct (isValid results); cbn [stats validated passed failed stats_errors];
    rewrite ?V, ?P, ?F, ?L; repeat split; try lia; now exists more.
Qed.

(** C3, as amended.  [validate] reports [isValid = true] exactly when every
    rule passes.  Every rule that fails, required or optional, is recorded in
    [errors] and makes the result invalid; a rule that returns a falsy value
    is moreover listed in [warnings] when it is optional, and counted in the
    failure counter when it is required. *)
Theorem validate_verdict (v : MessageValidator) (message ctx : Value)
  (clock : nat -> string) :
  let out := validate message ctx clock v in
  let rules := validationRules v in
  isValid (fst out) = forallb (passes message ctx) rules
  /\ errors (fst out) =
       map (error_of message ctx)
         (filter (fun e => negb (passes message ctx e)) rules)
  /\ warnings (fst out) =
       map warning_of
         (filter (fun e => returns_falsy message ctx e && negb (required (snd e)))
            rules)
  /\ failed (stats (snd out)) =
       failed (stats v) +
       List.length
         (filter (fun e => returns_falsy message ctx e && required (snd e)) rules).
Proof.
  unfold validate.
  pose proof (validate_rules_spec message ctx clock (validationRules v) 0
    {| isValid := true; errors := []; warnings := []; context := ctx |}
    (stats v)) as H.
  destruct (validate_rules message ctx clock 0 (validationRules v) _ (stats v))
    as [results st].
  cbn [fst snd isValid errors warnings app andb] in *.
  destruct H as (I & E & W & _ & _ & _ & F & _).
  destruct (isValid results); cbn [stats failed snd fst]; auto.
Qed.

(** C3, the claim as stated fails: the only rule of [optional_only] is
    optional and it fails; the failure is listed in [warnings], it is not
    counted as a failure, and yet the result is invalid. *)
Lemma optional_failure_invalidates :
  forallb (fun e => negb (required (snd e))) (validationRules optional_only) = true
  /\ isValid (fst (validate Null (Object []) fixed_clock optional_only)) = false
  /\ warnings (fst (validate Null (Object []) fixed_clock optional_only)) =
       [{| warning_rule := "advice";
           warning_message := "Validation failed for rule: advice" |}]
  /\ failed (stats (snd (validate Null (Object []) fixed_clock optional_only))) = 0.
Proof. repeat split. Qed.

(** C10.  Each [validate] adds one to [validated], and one to [passed]
    exactly when the result it returns is valid.  No operation but
    [resetStats] lowers a counter or drops an entry of the error log, and
    [resetStats] puts all of them back to zero and empty. *)
Theorem stats_only_grow_until_reset :
  (forall message ctx clock v,
      let out := validate message ctx clock v in
      validated (stats (snd out)) = S (validated (stats v))
      /\ passed (stats (snd out)) =
           passed (stats v) + (if isValid (fst out) then 1 else 0))
  /\ (forall op v,
        if is_reset op then stats (exec op v) = initial_stats
        else
          validated (stats v) <= validated (stats (exec op v))
          /\ passed (stats v) <= passed (stats (exec op v))
          /\ failed (stats v) <= failed (stats (exec op v))
          /\ exists more,
               stats_errors (stats (exec op v)) =
               (stats_errors (stats v) ++ more)%list).
Proof.
  assert (K : forall v : MessageValidator,
             validated (stats v) <= validated (stats v)
             /\ passed (stats v) <= passed (stats v)
             /\ failed (stats v) <= failed (stats v)
             /\ exists more, stats_errors (stats v) = (stats_errors (stats v) ++ more)%list).
  { intros v. repeat split; try lia. exists []. now rewrite app_nil_r. }
  assert (V : forall message ctx clock v,
             validated (stats v) <= validated (stats (snd (validate message ctx clock v)))
             /\ passed (stats v) <= passed (stats (snd (validate message ctx clock v)))
             /\ failed (stats v) <= failed (stats (snd (validate message ctx clock v)))
             /\ exists more,
                  stats_errors (stats (snd (validate message ctx clock v))) =
                  (stats_errors (stats v) ++ more)%list).
  { intros message ctx clock v.
    destruct (validate_stats message ctx clock v) as (A & B & C & D).
    repeat split; trivial; lia. }
  split.
  - intros message ctx clock v. cbn zeta.
    destruct (validate_stats message ctx clock v) as (A & B & _). now split.
  - intros op v.
    destruct op;
      cbn [is_reset exec addRule addHandler useValidationMiddleware stats];
      try apply K; try apply V; try reflexivity.
    unfold validateWithMiddleware.
    destruct (middleware v) as [mw|]; [|apply V].
    destruct (mw message ctx); [apply V|apply K].
Qed.

(** C8, the two examples of the claim: with the schema
    [{id: isNumber, name: isString}], [{id: 1, name: "a"}] is valid, and
    [{id: "x"}] is invalid with one error, tagged [matchesSchema]. *)
Lemma schema_examples :
  isValid (fst (validate good_message (Object []) fixed_clock
                  (schema_validator id_name_schema))) = true
  /\ isValid (fst (validate bad_message (Object []) fixed_clock
                     (schema_validator id_name_schema))) = false
  /\ map error_rule
       (errors (fst (validate bad_message (Object []) fixed_clock
                       (schema_validator id_name_schema)))) = ["matchesSchema"].
Proof. repeat split. Qed.

Lemma object_has_get (message : Value) (key : string) :
  is_object message = true ->
  has key message = Ret (present key message)
  /\ get message key = Ret (field key message).
Proof.
  unfold present, field. destruct message; cbn; try discriminate; auto.
Qed.

(** C8, the part of the claim the code keeps.  On a schema whose predicates
    do not throw, [matchesSchema] returns [accepts]: false exactly when the
    message is not an object or is null, or a key declared without ['?'] is
    absent, or a field that is present fails its nested validator; a key
    declared with ['?'] that is absent or undefined never causes failure. *)
Lemma matchesSchema_accepts (schema : Schema) :
  total schema ->
  forall message, matchesSchema schema message = Ret (accepts schema message).
Proof.
  induction schema as [fn|entries IH] using Schema_induction; intros T message.
  - cbn. unfold is_object. destruct (TypeTag_eqb _ _), (is_null message); reflexivity.
  - inversion T as [|entries' TE]; subst. clear T.
    cbn [matchesSchema accepts].
    destruct (is_object message) eqn:O.
    + unfold is_object in O. apply andb_prop in O as [O1 O2].
      rewrite O1. apply negb_true_iff in O2. rewrite O2. cbn [negb orb andb].
      assert (O : is_object message = true).
      { unfold is_object. now rewrite O1, O2. }
      induction entries as [|[key validator] rest IHr]; [reflexivity|].
      inversion IH as [|? ? IHv IHrest]; subst.
      inversion TE as [|? ? Tv Trest]; subst. cbn [snd] in *.
      specialize (IHr IHrest Trest).
      assert (K : forall v,
                 match validator with
                 | Predicate fn => fn v
                 | Nested _ => matchesSchema validator v
                 end
                 = Ret match validator with
                       | Predicate fn => holds fn v
                       | Nested _ => accepts validator v
                       end).
      { intros v. destruct validator as [fn|es].
        - inversion Tv as [? Tf|]; subst. unfold holds.
          destruct (Tf v) as [b ->]. reflexivity.
        - now apply IHv. }
      destruct (endsWith key "?").
      * destruct (object_has_get message (slice_0_m1 key) O) as [-> ->].
        cbn [bind]. destruct (present (slice_0_m1 key) message); cbn [negb orb].
        -- destruct (is_undefined (field (slice_0_m1 key) message)); cbn [negb orb].
           ++ exact IHr.
           ++ rewrite K. cbn [bind].
              destruct (match validator with
                        | Predicate fn => holds fn (field (slice_0_m1 key) message)
                        | Nested _ => accepts validator (field (slice_0_m1 key) message)
                        end); cbn [negb andb]; [exact IHr|reflexivity].
        -- exact IHr.
      * destruct (object_has_get message key O) as [-> ->].
        cbn [bind]. destruct (present key message); cbn [negb andb]; [|reflexivity].
        rewrite K. cbn [bind].
        destruct (match validator with
                  | Predicate fn => holds fn (field key message)
                  | Nested _ => accepts validator (field key message)
                  end); cbn [negb andb]; [exact IHr|reflexivity].
    + unfold is_object in O. cbn [andb].
      destruct (TypeTag_eqb (typeof message) TObject); cbn in *;
        [rewrite negb_false_iff in O; rewrite O|]; reflexivity.
Qed.

(** C8, where the code departs from the claim: the array [[1, 2]] is not a
    structured object (the rule [isObject] says so), yet the schema
    [{"name?": isString}] accepts it, and so does a validator built on it. *)
Theorem matchesSchema_accepts_array :
  isObject an_array = false
  /\ matchesSchema optional_name_schema an_array = Ret true
  /\ matchesSchema (Nested []) (Array []) = Ret true
  /\ isValid (fst (validate an_array (Object []) fixed_clock
                     (schema_validator optional_name_schema))) = true.
Proof. repeat split. Qed.

End ValidatorFacts.

(* ------------------------------------------------------------------ *)
(** ** The client: what its methods and listeners do *)
(* ------------------------------------------------------------------ *)
Module ClientFacts.
Import Client ClientSpec.

(** *** The interceptor *)

(** C1, the part the code keeps: a frame [JSON.parse] rejects goes through
    every interceptor to the application's callback, unchanged. *)
Lemma unparseable_frames_reach_the_application (h : Handler) (data : Incoming)
  (c : Client) :
  JSON_parse data = None ->
  call_onMessage h data c = emit (OnMessage data) c.
Proof.
  intros E. induction h as [|messageId timeoutId p original IH]; cbn.
  - reflexivity.
  - rewrite E. exact IH.
Qed.

(** C1, where the code departs from the claim.  While the interceptor of a
    [sendWithAck] is installed, a frame that [JSON.parse] accepts and whose
    [id] is not the one the call assigned is not forwarded: nothing happens
    but the count of received frames, and no callback is called. *)
Theorem interceptor_swallows_parsed_frames (c : Client) (messageId : string)
  (timeoutId : TimerId) (p : PromiseId) (original : Handler)
  (data : Incoming) (parsedData idv : Value) :
  onMessage c = AckInterceptor messageId timeoutId p original ->
  JSON_parse data = Some parsedData ->
  get parsedData "id" = Ret idv ->
  strict_eq_string idv messageId = false ->
  on_message data c = incr_received c
  /\ log (on_message data c) = log c.
Proof.
  intros Hh Hp Hid Hne.
  assert (E : on_message data c = incr_received c).
  { unfold on_message.
    change (onMessage (incr_received c)) with (onMessage c). rewrite Hh.
    cbn [call_onMessage]. rewrite Hp.
    destruct parsedData; try discriminate Hid;
      cbn [get bind] in *; rewrite ?Hid; cbn [bind];
      match goal with
      | |- context [truthy ?a] => destruct (truthy a)
      end; cbn [bind]; rewrite ?Hne; try reflexivity;
      injection Hid as <-; rewrite ?Hne; reflexivity. }
  split; [exact E|]. rewrite E. reflexivity.
Qed.

(** C1, at the frame [{"type":"chat","id":"other"}]. *)
Lemma interceptor_swallows_chat_frame :
  on_message chat_frame waiting_client = incr_received waiting_client
  /\ log (on_message chat_frame waiting_client) = log waiting_client.
Proof.
  apply (interceptor_swallows_parsed_frames waiting_client "msg_1_0.5" 0 1
           UserOnMessage chat_frame
           (Object [("type", Str "chat"); ("id", Str "other")]) (Str "other"));
    reflexivity.
Defined.

(** *** Reconnection *)



(** *** disconnect *)




(** *** Settling a promise touches nothing but the promises and the jobs *)

Ltac settle_proj :=
  intros; unfold resolve, reject;
  match goal with |- context [promise_state ?p ?c] => destruct (promise_state p c) end;
  reflexivity.

Lemma ws_resolve (p : PromiseId) (v : Value) (c : Client) :
  ws (resolve p v c) = ws c.
Proof. settle_proj. Qed.

Lemma isConnected_resolve (p : PromiseId) (v : Value) (c : Client) :
  isConnected (resolve p v c) = isConnected c.
Proof. settle_proj. Qed.

Lemma messageQueue_resolve (p : PromiseId) (v : Value) (c : Client) :
  messageQueue (resolve p v c) = messageQueue c.
Proof. settle_proj. Qed.

Lemma stats_resolve (p : PromiseId) (v : Value) (c : Client) :
  stats (resolve p v c) = stats c.
Proof. settle_proj. Qed.

Lemma onMessage_resolve (p : PromiseId) (v : Value) (c : Client) :
  onMessage (resolve p v c) = onMessage c.
Proof. settle_proj. Qed.

Lemma timers_resolve (p : PromiseId) (v : Value) (c : Client) :
  timers (resolve p v c) = timers c.
Proof. settle_proj. Qed.

Lemma nextTimer_resolve (p : PromiseId) (v : Value) (c : Client) :
  nextTimer (resolve p v c) = nextTimer c.
Proof. settle_proj. Qed.

Lemma sockets_resolve (p : PromiseId) (v : Value) (c : Client) :
  sockets (resolve p v c) = sockets c.
Proof. settle_proj. Qed.

Lemma inflight_resolve (p : PromiseId) (v : Value) (c : Client) :
  inflight (resolve p v c) = inflight c.
Proof. settle_proj. Qed.

Lemma sendCalls_resolve (p : PromiseId) (v : Value) (c : Client) :
  sendCalls (resolve p v c) = sendCalls c.
Proof. settle_proj. Qed.

Lemma log_resolve (p : PromiseId) (v : Value) (c : Client) :
  log (resolve p v c) = log c.
Proof. settle_proj. Qed.

Lemma reconnectAttempts_resolve (p : PromiseId) (v : Value) (c : Client) :
  reconnectAttempts (resolve p v c) = reconnectAttempts c.
Proof. settle_proj. Qed.

Lemma maxReconnectAttempts_resolve (p : PromiseId) (v : Value) (c : Client) :
  maxReconnectAttempts (resolve p v c) = maxReconnectAttempts c.
Proof. settle_proj. Qed.

Lemma reconnectDelay_resolve (p : PromiseId) (v : Value) (c : Client) :
  reconnectDelay (resolve p v c) = reconnectDelay c.
Proof. settle_proj. Qed.

Lemma autoReconnect_resolve (p : PromiseId) (v : Value) (c : Client) :
  autoReconnect (resolve p v c) = autoReconnect c.
Proof. settle_proj. Qed.

Lemma url_resolve (p : PromiseId) (v : Value) (c : Client) :
  url (resolve p v c) = url c.
Proof. settle_proj. Qed.

Lemma ws_reject (p : PromiseId) (msg : string) (c : Client) :
  ws (reject p msg c) = ws c.
Proof. settle_proj. Qed.

Lemma isConnected_reject (p : PromiseId) (msg : string) (c : Client) :
  isConnected (reject p msg c) = isConnected c.
Proof. settle_proj. Qed.

Lemma messageQueue_reject (p : PromiseId) (msg : string) (c : Client) :
  messageQueue (reject p msg c) = messageQueue c.
Proof. settle_proj. Qed.

Lemma stats_reject (p : PromiseId) (msg : string) (c : Client) :
  stats (reject p msg c) = stats c.
Proof. settle_proj. Qed.

Lemma onMessage_reject (p : PromiseId) (msg : string) (c : Client) :
  onMessage (reject p msg c) = onMessage c.
Proof. settle_proj. Qed.

Lemma timers_reject (p : PromiseId) (msg : string) (c : Client) :
  timers (reject p msg c) = timers c.
Proof. settle_proj. Qed.

Lemma nextTimer_reject (p : PromiseId) (msg : string) (c : Client) :
  nextTimer (reject p msg c) = nextTimer c.
Proof. settle_proj. Qed.

Lemma sockets_reject (p : PromiseId) (msg : string) (c : Client) :
  sockets (reject p msg c) = sockets c.
Proof. settle_proj. Qed.

Lemma inflight_reject (p : PromiseId) (msg : string) (c : Client) :
  inflight (reject p msg c) = inflight c.
Proof. settle_proj. Qed.

Lemma sendCalls_reject (p : PromiseId) (msg : string) (c : Client) :
  sendCalls (reject p msg c) = sendCalls c.
Proof. settle_proj. Qed.

Lemma log_reject (p : PromiseId) (msg : string) (c : Client) :
  log (reject p msg c) = log c.
Proof. settle_proj. Qed.

Lemma reconnectAttempts_reject (p : PromiseId) (msg : string) (c : Client) :
  reconnectAttempts (reject p msg c) = reconnectAttempts c.
Proof. settle_proj. Qed.

Lemma maxReconnectAttempts_reject (p : PromiseId) (msg : string) (c : Client) :
  maxReconnectAttempts (reject p msg c) = maxReconnectAttempts c.
Proof. settle_proj. Qed.

Lemma reconnectDelay_reject (p : PromiseId) (msg : string) (c : Client) :
  reconnectDelay (reject p msg c) = reconnectDelay c.
Proof. settle_proj. Qed.

Lemma autoReconnect_reject (p : PromiseId) (msg : string) (c : Client) :
  autoReconnect (reject p msg c) = autoReconnect c.
Proof. settle_proj. Qed.

Lemma url_reject (p : PromiseId) (msg : string) (c : Client) :
  url (reject p msg c) = url c.
Proof. settle_proj. Qed.

Create Rewrite HintDb settle.
#[export] Hint Rewrite
  ws_resolve isConnected_resolve messageQueue_resolve stats_resolve
  onMessage_resolve timers_resolve nextTimer_resolve sockets_resolve
  inflight_resolve sendCalls_resolve log_resolve reconnectAttempts_resolve
  maxReconnectAttempts_resolve reconnectDelay_resolve autoReconnect_resolve
  url_resolve ws_reject isConnected_reject messageQueue_reject stats_reject
  onMessage_reject timers_reject nextTimer_reject sockets_reject
  inflight_reject sendCalls_reject log_reject reconnectAttempts_reject
  maxReconnectAttempts_reject reconnectDelay_reject autoReconnect_reject
  url_reject : settle.

(** *** The payload of sendWithAck *)









Section Payload.
Variable ws_send_throws : nat -> option string.




End Payload.


(** *** The outbound queue *)

Section Queue.
Variable ws_send_throws : nat -> option string.

Lemma send_queues (m : Data) (queue : option bool) (c : Client) :
  is_open c = false ->
  queue_enabled queue = true ->
  send ws_send_throws m queue c =
    (List.length (promises c),
     set_messageQueue
       (messageQueue c ++
        [{| message := m; completion := List.length (promises c) |}])
       (set_promises (promises c ++ [Pending]) c)).
Proof.
  unfold is_open, send, new_promise. cbn.
  destruct (ws c), (isConnected c), queue as [[|]|]; cbn;
    intros; try discriminate; reflexivity.
Qed.

Lemma send_all_queues (sends : list (Data * option bool)) :
  forall c : Client,
    is_open c = false ->
    forallb (fun x => queue_enabled (snd x)) sends = true ->
    map message (messageQueue (send_all ws_send_throws sends c)) =
      (map message (messageQueue c) ++ map fst sends)%list
    /\ log (send_all ws_send_throws sends c) = log c
    /\ is_open (send_all ws_send_throws sends c) = false.
Proof.
  induction sends as [|[m queue] sends IH]; intros c O Q.
  - cbn. now rewrite app_nil_r.
  - cbn in Q. apply andb_prop in Q as [Q1 Q2].
    cbn [send_all fold_left fst snd]. rewrite (send_queues m queue c O Q1).
    cbn [snd].
    match goal with
    | |- context [fold_left _ sends ?c1] =>
        destruct (IH c1) as (A & B & C); [exact O|exact Q2|]
    end.
    unfold send_all in *. rewrite A, B, C. cbn.
    rewrite map_app, <- app_assoc. auto.
Qed.

Lemma _sendMessage_frame (m : Data) (p : PromiseId) (c : Client) (s : SocketId) :
  ws c = Some s ->
  let c' := _sendMessage ws_send_throws m p c in
  ws c' = Some s
  /\ messageQueue c' = messageQueue c
  /\ sendCalls c' = S (sendCalls c)
  /\ log c' =
       (log c ++ [WsSend s m (returned (ws_send_throws (sendCalls c)))])%list.
Proof.
  intros W. unfold _sendMessage. rewrite W.
  destruct (ws_send_throws (sendCalls c)); cbn [returned];
    autorewrite with settle; cbn; auto.
Qed.

Lemma flush_spec (queue : list QueueItem) (s : SocketId) :
  forall c : Client,
    ws c = Some s ->
    ws (flush ws_send_throws queue c) = Some s
    /\ messageQueue (flush ws_send_throws queue c) =
         match queue with [] => messageQueue c | _ => [] end
    /\ log (flush ws_send_throws queue c) =
         (log c ++ flush_effects ws_send_throws s (sendCalls c) queue)%list.
Proof.
  induction queue as [|item rest IH]; intros c W.
  - cbn. now rewrite app_nil_r.
  - cbn [flush flush_effects].
    destruct (_sendMessage_frame (message item) (completion item)
                (set_messageQueue rest c) s W) as (A & B & C & D).
    destruct (IH _ A) as (E & F & G).
    rewrite E, F, G, B, C, D. cbn. rewrite <- app_assoc.
    repeat split. destruct rest; reflexivity.
Qed.

Lemma ws_sends_app (l1 l2 : list Effect) :
  ws_sends (l1 ++ l2) = (ws_sends l1 ++ ws_sends l2)%list.
Proof. apply flat_map_app. Qed.

Lemma transmitted_app (l1 l2 : list Effect) :
  transmitted (l1 ++ l2) = (transmitted l1 ++ transmitted l2)%list.
Proof. apply flat_map_app. Qed.

Lemma ws_sends_flush_effects (s : SocketId) (queue : list QueueItem) :
  forall n, ws_sends (flush_effects ws_send_throws s n queue) = map message queue.
Proof. induction queue; intros n; cbn; [|rewrite IHqueue]; reflexivity. Qed.

Lemma transmitted_flush_effects (s : SocketId) (queue : list QueueItem) :
  (forall n, ws_send_throws n = None) ->
  forall n, transmitted (flush_effects ws_send_throws s n queue) = map message queue.
Proof.
  intros H. induction queue; intros n; cbn; [reflexivity|].
  rewrite H, IHqueue. reflexivity.
Qed.

(** C6.  Payloads sent while the connection is not open are appended to the
    queue in order and nothing is handed to the socket.  When the socket then
    opens, the ['open'] listener hands the queued payloads to [ws.send] in
    queue order, each once, and leaves the queue empty; if no call throws,
    all of them are transmitted. *)
Theorem queue_is_flushed_in_order (c : Client)
  (sends : list (Data * option bool)) :
  is_open c = false ->
  forallb (fun x => queue_enabled (snd x)) sends = true ->
  let c1 := send_all ws_send_throws sends c in
  map message (messageQueue c1) =
    (map message (messageQueue c) ++ map fst sends)%list
  /\ ws_sends (log c1) = ws_sends (log c)
  /\ forall (c2 : Client) (s : SocketId) (p : PromiseId),
       ws c2 = Some s ->
       messageQueue c2 = messageQueue c1 ->
       let c3 := on_open ws_send_throws p c2 in
       messageQueue c3 = []
       /\ ws_sends (log c3) =
            (ws_sends (log c2) ++ map message (messageQueue c) ++ map fst sends)%list
       /\ ((forall n, ws_send_throws n = None) ->
           transmitted (log c3) =
             (transmitted (log c2) ++ map message (messageQueue c)
              ++ map fst sends)%list).
Proof.
  intros O Q. cbn zeta.
  destruct (send_all_queues sends c O Q) as (A & B & _).
  split; [exact A|]. split; [now rewrite B|].
  intros c2 s p W E. unfold on_open.
  destruct (flush_spec (messageQueue (set_reconnectAttempts 0%Z (set_isConnected true c2)))
              s (set_reconnectAttempts 0%Z (set_isConnected true c2)) W)
    as (_ & F & G).
  autorewrite with settle. cbn [emit log messageQueue set_log].
  rewrite F, G. cbn [messageQueue set_reconnectAttempts set_isConnected log sendCalls].
  rewrite <- A, <- E.
  split; [destruct (messageQueue c2); reflexivity|]. split.
  - rewrite !ws_sends_app, ws_sends_flush_effects. cbn. now rewrite app_nil_r.
  - intros H. rewrite !transmitted_app, transmitted_flush_effects by exact H.
    cbn. now rewrite app_nil_r.
Qed.

End Queue.

(** C6, at the payloads A, B, C sent while the first socket is connecting. *)
Lemma A_B_C_are_flushed_in_order :
  let c1 := send_all never_throws A_B_C connecting_client in
  map message (messageQueue c1) = [Text "A"; Text "B"; Text "C"]
  /\ transmitted (log (on_open never_throws 0 c1)) =
       [Text "A"; Text "B"; Text "C"]
  /\ messageQueue (on_open never_throws 0 c1) = [].
Proof.
  destruct (queue_is_flushed_in_order never_throws connecting_client A_B_C
              eq_refl eq_refl) as (H1 & _ & H3).
  destruct (H3 (send_all never_throws A_B_C connecting_client) 0 0
              eq_refl eq_refl) as (H4 & _ & H5).
  split; [exact H1|]. split; [|exact H4].
  exact (H5 (fun n => eq_refl)).
Defined.

(** *** Well-formed states: helper lemmas *)

Lemma drain_no_jobs (fuel : nat) (c : Client) :
  jobs c = [] -> drain fuel c = c.
Proof. intros H. destruct fuel; cbn; rewrite ?H; reflexivity. Qed.

Lemma run_jobs_no_jobs (c : Client) : jobs c = [] -> run_jobs c = c.
Proof. apply drain_no_jobs. Qed.

Lemma nth_fresh {A} (l : list A) (x d : A) : nth (List.length l) (l ++ [x]) d = x.
Proof. rewrite app_nth2, Nat.sub_diag by lia. reflexivity. Qed.

Lemma find_timer_fresh (ts : list Timer) (t : Timer) (id : TimerId) :
  timer_id t = id ->
  forallb (fun t' => (timer_id t' <? id)%nat) ts = true ->
  find (fun t' => Nat.eqb (timer_id t') id) (ts ++ [t]) = Some t.
Proof.
  intros <-. induction ts as [|t' ts IH]; cbn; intros H.
  - now rewrite Nat.eqb_refl.
  - apply andb_prop in H as [H1 H2]. apply Nat.ltb_lt in H1.
    destruct (Nat.eqb_spec (timer_id t') (timer_id t)); [lia|auto].
Qed.

Lemma clear_timer_fresh (ts : list Timer) (t : Timer) (id : TimerId) :
  timer_id t = id ->
  forallb (fun t' => (timer_id t' <? id)%nat) ts = true ->
  filter (fun t' => negb (Nat.eqb (timer_id t') id)) (ts ++ [t]) = ts.
Proof.
  intros <-. induction ts as [|t' ts IH]; cbn; intros H.
  - now rewrite Nat.eqb_refl.
  - apply andb_prop in H as [H1 H2]. apply Nat.ltb_lt in H1.
    destruct (Nat.eqb_spec (timer_id t') (timer_id t)); [lia|].
    cbn. now rewrite IH.
Qed.

Lemma take_awaiting_fresh (p : PromiseId) (l : list (PromiseId * AckCatch)) :
  forallb (fun e => negb (Nat.eqb (fst e) p)) l = true -> take_awaiting p l = [].
Proof.
  unfold take_awaiting. induction l as [|e l IH]; intros H; [reflexivity|].
  cbn [forallb] in H. apply andb_prop in H as [H1 H2].
  apply negb_true_iff in H1. cbn [filter]. rewrite H1. auto.
Qed.

Lemma drop_awaiting_fresh (p : PromiseId) (l : list (PromiseId * AckCatch)) :
  forallb (fun e => negb (Nat.eqb (fst e) p)) l = true -> drop_awaiting p l = l.
Proof.
  unfold drop_awaiting. induction l as [|e l IH]; intros H; [reflexivity|].
  cbn [forallb] in H. apply andb_prop in H as [H1 H2].
  cbn [filter]. rewrite H1, IH; auto.
Qed.

Lemma forallb_impl {A} (f g : A -> bool) (l : list A) :
  (forall x, f x = true -> g x = true) ->
  forallb f l = true -> forallb g l = true.
Proof.
  intros I H. rewrite forallb_forall in *. auto.
Qed.

(** The parts of a well-formed state. *)
Lemma wf_parts (c : Client) :
  wf c = true ->
  forallb (fun t => (timer_id t <? nextTimer c)%nat) (timers c) = true
  /\ forallb (fun e => (fst e <? List.length (promises c))%nat
                       && handler_bounded (List.length (promises c))
                            (catch_originalOnMessage (snd e)))
       (awaiting c) = true
  /\ forallb (fun p => (p <? List.length (promises c))%nat) (sockets c) = true
  /\ forallb (fun e => (snd e <? List.length (promises c))%nat) (inflight c) = true
  /\ forallb (fun i => (completion i <? List.length (promises c))%nat)
       (messageQueue c) = true
  /\ handler_bounded (List.length (promises c)) (onMessage c) = true
  /\ jobs c = []
  /\ (ws c = None -> sockets c = [] /\ isConnected c = false).
Proof.
  unfold wf. intros H.
  apply andb_prop in H as [H HJ]. apply andb_prop in H as [H HW].
  apply andb_prop in H as [H HH]. apply andb_prop in H as [H HQ].
  apply andb_prop in H as [H HI]. apply andb_prop in H as [H HS].
  apply andb_prop in H as [HT HA].
  repeat split; trivial.
  - destruct (jobs c); [reflexivity|discriminate].
  - rewrite H in HW. apply andb_prop in HW as [_ HW].
    destruct (sockets c); [reflexivity|discriminate].
  - rewrite H in HW. apply andb_prop in HW as [HW _].
    now apply negb_true_iff.
Qed.

Lemma awaiting_not_fresh (c : Client) (p : PromiseId) :
  wf c = true -> List.length (promises c) <= p ->
  forallb (fun e => negb (Nat.eqb (fst e) p)) (awaiting c) = true.
Proof.
  intros W L. destruct (wf_parts c W) as (_ & A & _).
  revert A. apply forallb_impl. intros e H.
  apply andb_prop in H as [H _]. apply Nat.ltb_lt in H.
  destruct (Nat.eqb_spec (fst e) p); [lia|reflexivity].
Qed.

Lemma nth_fresh2 {A} (l : list A) (x y d : A) :
  nth (S (List.length l)) ((l ++ [x]) ++ [y]) d = y.
Proof.
  replace (S (List.length l)) with (List.length (l ++ [x])).
  - apply nth_fresh.
  - rewrite length_app. cbn. lia.
Qed.

Lemma nth_fresh1 {A} (l : list A) (x y d : A) :
  nth (List.length l) ((l ++ [x]) ++ [y]) d = x.
Proof. rewrite <- app_assoc. cbn. rewrite app_nth2, Nat.sub_diag by lia. reflexivity. Qed.

Lemma length_update_nth {A} (n : nat) (x : A) (l : list A) :
  List.length (update_nth n x l) = List.length l.
Proof.
  revert n. induction l as [|y l IH]; intros [|n]; cbn; auto.
Qed.

Lemma nth_update_nth_same {A} (n : nat) (x d : A) (l : list A) :
  n < List.length l -> nth n (update_nth n x l) d = x.
Proof.
  revert n. induction l as [|y l IH]; intros [|n]; cbn; intros H;
    try lia; auto with arith.
Qed.

Lemma nth_update_nth_other {A} (n m : nat) (x d : A) (l : list A) :
  n <> m -> nth m (update_nth n x l) d = nth m l d.
Proof.
  revert n m. induction l as [|y l IH]; intros [|n] [|m]; cbn; intros H;
    try congruence; auto.
Qed.

(** Rejecting a pending promise that no continuation awaits. *)
Lemma reject_unawaited (p : PromiseId) (msg : string) (c : Client) :
  p < List.length (promises c) ->
  promise_state p c = Pending ->
  forallb (fun e => negb (Nat.eqb (fst e) p)) (awaiting c) = true ->
  promise_state p (reject p msg c) = Rejected msg
  /\ jobs (reject p msg c) = jobs c
  /\ awaiting (reject p msg c) = awaiting c.
Proof.
  intros L P A. unfold reject. rewrite P.
  rewrite take_awaiting_fresh, drop_awaiting_fresh by exact A.
  unfold promise_state. cbn. rewrite app_nil_r.
  now rewrite nth_update_nth_same.
Qed.


(** *** The promise of a queued send is owned by the queue *)

Lemma In_skipn_app {A} (n : nat) (x : A) (l l' : list A) :
  In x (skipn n l) -> In x (skipn n (l ++ l')).
Proof. intros H. rewrite skipn_app. apply in_or_app. now left. Qed.

Lemma In_skipn_new {A} (n : nat) (x : A) (l l' : list A) :
  n <= List.length l -> In x l' -> In x (skipn n (l ++ l')).
Proof.
  intros L H. rewrite skipn_app. apply in_or_app. right.
  replace (n - List.length l) with 0 by lia. exact H.
Qed.

Lemma nth_app_old {A} (n : nat) (l l' : list A) (d : A) :
  n < List.length l -> nth n (l ++ l') d = nth n l d.
Proof. intros H. now apply app_nth1. Qed.

Lemma lookup_token_In (tok : Token) (l : list (Token * PromiseId)) (p : PromiseId) :
  lookup_token tok l = Some p -> In (tok, p) l.
Proof.
  induction l as [|[t q] l IH]; cbn; [discriminate|].
  destruct (Nat.eqb_spec t tok).
  - intros [= ->]. subst. now left.
  - auto.
Qed.

Section Owned.
Variables (m : Data) (p : PromiseId) (n0 : nat).

Ltac frame H := destruct H; constructor; cbn in *; auto.

Lemma sent_since_log (c c' : Client) (more : list Effect) :
  log c' = (log c ++ more)%list -> sent_since m n0 c -> sent_since m n0 c'.
Proof.
  intros E [s H]. exists s. rewrite E. now apply In_skipn_app.
Qed.

Lemma owned_emit (e : Effect) (c : Client) :
  owned m p n0 c -> owned m p n0 (emit e c).
Proof.
  intros H. destruct H as [H1 H2 H3 H4 H5 H6 HQ H7]. constructor; cbn; auto.
  - rewrite length_app. lia.
  - destruct H7 as [H7|H7]; [left|right; exact H7].
    eapply sent_since_log; [|exact H7]. reflexivity.
Qed.

Lemma owned_incr_errors c : owned m p n0 c -> owned m p n0 (incr_errors c).
Proof. intros H. frame H. Qed.
Lemma owned_incr_sent c : owned m p n0 c -> owned m p n0 (incr_sent c).
Proof. intros H. frame H. Qed.
Lemma owned_incr_received c : owned m p n0 c -> owned m p n0 (incr_received c).
Proof. intros H. frame H. Qed.
Lemma owned_incr_connections c : owned m p n0 c -> owned m p n0 (incr_connections c).
Proof. intros H. frame H. Qed.
Lemma owned_incr_disconnections c :
  owned m p n0 c -> owned m p n0 (incr_disconnections c).
Proof. intros H. frame H. Qed.
Lemma owned_set_isConnected b c : owned m p n0 c -> owned m p n0 (set_isConnected b c).
Proof. intros H. frame H. Qed.
Lemma owned_set_reconnectAttempts z c :
  owned m p n0 c -> owned m p n0 (set_reconnectAttempts z c).
Proof. intros H. frame H. Qed.
Lemma owned_set_ws s c : owned m p n0 c -> owned m p n0 (set_ws s c).
Proof. intros H. frame H. Qed.
Lemma owned_set_sendCalls n c : owned m p n0 c -> owned m p n0 (set_sendCalls n c).
Proof. intros H. frame H. Qed.
Lemma owned_setTimeout task delay c :
  owned m p n0 c -> owned m p n0 (snd (setTimeout task delay c)).
Proof. intros H. frame H. Qed.
Lemma owned_clearTimeout id c : owned m p n0 c -> owned m p n0 (clearTimeout id c).
Proof. intros H. frame H. Qed.

Lemma owned_new_promise c : owned m p n0 c -> owned m p n0 (snd (new_promise c)).
Proof.
  intros H. destruct H as [H1 H2 H3 H4 H5 H6 HQ H7]. constructor; cbn; auto.
  - rewrite length_app. lia.
  - destruct H7 as [H7|H7]; [now left|right].
    unfold promise_state in *. cbn. now rewrite nth_app_old.
Qed.

Lemma owned_set_onMessage h c :
  resolves p h = false -> owned m p n0 c -> owned m p n0 (set_onMessage h c).
Proof. intros R H. frame H. Qed.

Lemma owned_set_messageQueue q c :
  (forall i, In i q -> completion i = p -> message i = m) ->
  owned m p n0 c -> owned m p n0 (set_messageQueue q c).
Proof.
  intros Q H. frame H.
Qed.

Lemma owned_set_inflight l c :
  (forall tok, In (tok, p) l -> In (tok, p) (inflight c)) ->
  owned m p n0 c -> owned m p n0 (set_inflight l c).
Proof.
  intros Q H. destruct H as [H1 H2 H3 H4 H5 H6 HQ H7]. constructor; cbn; auto.
  destruct H7 as [H7|(A & B)]; [now left|right].
  split; auto. intros tok I. exact (B tok (Q tok I)).
Qed.

Lemma owned_set_sockets l c :
  ~ In p l -> owned m p n0 c -> owned m p n0 (set_sockets l c).
Proof. intros Q H. frame H. Qed.

Lemma owned_settle (q : PromiseId) (st : PromiseState) (c : Client)
  (aw : list (PromiseId * AckCatch)) (jb : list (AckCatch * string)) :
  (q = p -> is_fulfilled st = false) ->
  (forall e, In e aw -> resolves p (catch_originalOnMessage (snd e)) = false) ->
  (forall j, In j jb -> resolves p (catch_originalOnMessage (fst j)) = false) ->
  owned m p n0 c ->
  owned m p n0
    (set_jobs jb (set_awaiting aw
       (set_promises (update_nth q st (promises c)) c))).
Proof.
  intros F A J H. destruct H as [H1 H2 H3 H4 H5 H6 HQ H7]. constructor; cbn; auto.
  - now rewrite length_update_nth.
  - destruct H7 as [H7|(X & Y)]; [now left|right].
    split; auto. unfold promise_state in *. cbn.
    destruct (Nat.eq_dec q p) as [->|N].
    + rewrite nth_update_nth_same by exact H1. auto.
    + now rewrite nth_update_nth_other.
Qed.

Lemma In_drop_awaiting q e (l : list (PromiseId * AckCatch)) :
  In e (drop_awaiting q l) -> In e l.
Proof. unfold drop_awaiting. intros H. now apply filter_In in H. Qed.

Lemma In_take_awaiting q k (l : list (PromiseId * AckCatch)) :
  In k (take_awaiting q l) -> exists e, In e l /\ snd e = k.
Proof.
  unfold take_awaiting. intros H. apply in_map_iff in H as (e & E & H).
  apply filter_In in H. exists e. tauto.
Qed.

Lemma owned_resolve q v c :
  q <> p -> owned m p n0 c -> owned m p n0 (resolve q v c).
Proof.
  intros N H. unfold resolve. destruct (promise_state q c); auto.
  replace (set_awaiting _ _) with
    (set_jobs (jobs c) (set_awaiting (drop_awaiting q (awaiting c))
       (set_promises (update_nth q (Fulfilled v) (promises c)) c)))
    by reflexivity.
  apply owned_settle; auto.
  - congruence.
  - intros e I. apply (owned_awaiting _ _ _ _ H). eapply In_drop_awaiting; eauto.
  - apply (owned_jobs _ _ _ _ H).
Qed.

Lemma owned_reject q msg c :
  owned m p n0 c -> owned m p n0 (reject q msg c).
Proof.
  intros H. unfold reject. destruct (promise_state q c); auto.
  apply owned_settle; auto.
  - intros e I. apply (owned_awaiting _ _ _ _ H). eapply In_drop_awaiting; eauto.
  - intros j I. apply in_app_or in I as [I|I].
    + now apply (owned_jobs _ _ _ _ H).
    + apply in_map_iff in I as (k & <- & I). cbn.
      apply In_take_awaiting in I as (e & I & <-).
      now apply (owned_awaiting _ _ _ _ H).
Qed.

End Owned.

Section OwnedMethods.
Variable ws_send_throws : nat -> option string.
Variables (m : Data) (p : PromiseId) (n0 : nat).

Local Abbreviation owned := (owned m p n0).

(** A [ws.send] of [m] that returned: from then on [m] counts as sent. *)
Lemma owned_transmit (s : SocketId) (l : list (Token * PromiseId)) (c : Client) :
  owned c -> owned (set_inflight l (emit (WsSend s m true) c)).
Proof.
  intros H. destruct H as [H1 H2 H3 H4 H5 H6 HQ H7]. constructor; cbn; auto.
  - rewrite length_app. lia.
  - left. exists s. apply In_skipn_new; [exact H2|now left].
Qed.

Lemma owned__sendMessage (m' : Data) (q : PromiseId) (c : Client) :
  (q = p -> m' = m) -> owned c ->
  owned (_sendMessage ws_send_throws m' q c).
Proof.
  intros Q H. unfold _sendMessage. destruct (ws c) as [s|].
  - destruct (ws_send_throws (sendCalls c)).
    + apply owned_reject, owned_incr_errors, owned_emit, owned_set_sendCalls, H.
    + destruct (Nat.eq_dec q p) as [E|N].
      * rewrite (Q E). apply owned_transmit, owned_set_sendCalls, H.
      * apply owned_set_inflight.
        -- cbn. intros tok I. apply in_app_or in I as [I|[I|[]]]; [exact I|].
           congruence.
        -- apply owned_emit, owned_set_sendCalls, H.
  - apply owned_reject, owned_incr_errors, H.
Qed.

Lemma owned_send_callback (tok : Token) (error : option string) (c : Client) :
  owned c -> owned (send_callback tok error c).
Proof.
  intros H. unfold send_callback.
  destruct (lookup_token tok (inflight c)) as [q|] eqn:L; [|exact H].
  assert (H' : owned (set_inflight (remove_token tok (inflight c)) c)).
  { apply owned_set_inflight; [|exact H].
    intros t I. unfold remove_token in I. now apply filter_In in I. }
  destruct error as [msg|].
  - apply owned_reject, owned_incr_errors, H'.
  - destruct (Nat.eq_dec q p) as [->|N].
    + (* the callback of the send of [m]: it was transmitted *)
      apply lookup_token_In in L.
      destruct (owned_state _ _ _ _ H) as [S|(_ & B)].
      * destruct H as [H1 H2 H3 H4 H5 H6 HQ H7].
        unfold resolve. destruct (promise_state p _); [|try (apply owned_incr_sent, H')..].
        constructor; cbn; auto.
        -- now rewrite length_update_nth.
        -- intros e I. apply H5. eapply In_drop_awaiting; eauto.
      * exfalso. exact (B tok L).
    + apply owned_resolve; [exact N|]. apply owned_incr_sent, H'.
Qed.

Lemma owned_send (m' : Data) (queue : option bool) (c : Client) :
  owned c -> owned (snd (send ws_send_throws m' queue c)).
Proof.
  intros H. unfold send.
  pose proof (owned_new_promise m p n0 c H) as H'.
  pose proof (owned_allocated _ _ _ _ H) as A.
  pose proof (owned_queue _ _ _ _ H) as Q.
  unfold new_promise in *. cbn [fst snd] in *.
  cbn [ws isConnected set_promises].
  assert (K : forall q : option bool,
             owned (snd (let c1 := set_promises (promises c ++ [Pending]) c in
                     match q with
                     | Some false =>
                         (List.length (promises c),
                          reject (List.length (promises c))
                            "WebSocket is not connected" c1)
                     | _ =>
                         (List.length (promises c),
                          set_messageQueue
                            (messageQueue c1 ++
                             [{| message := m';
                                 completion := List.length (promises c) |}]) c1)
                     end))).
  { intros [[|]|]; cbn [snd];
      try (apply owned_reject; exact H');
      (apply owned_set_messageQueue; [|exact H']);
      cbn; intros i I; apply in_app_or in I as [I|[<-|[]]]; cbn;
      auto; lia. }
  destruct (ws c); [destruct (isConnected c)|]; cbn [snd].
  - apply owned__sendMessage; [lia|exact H'].
  - apply K.
  - apply K.
Qed.

Lemma owned_connect (thrown : option string) (c : Client) :
  owned c -> owned (snd (connect thrown c)).
Proof.
  intros H. unfold connect.
  pose proof (owned_new_promise m p n0 c H) as H'.
  pose proof (owned_allocated _ _ _ _ H) as A.
  unfold new_promise in *. cbn [fst snd] in *.
  destruct thrown; cbn [snd].
  - apply owned_reject, H'.
  - apply owned_incr_connections, owned_set_sockets.
    + cbn. intros I. apply in_app_or in I as [I|[I|[]]].
      * exact (owned_sockets _ _ _ _ H I).
      * lia.
    + apply owned_emit, owned_set_ws, H'.
Qed.

Lemma owned__attemptReconnect (c : Client) :
  owned c -> owned (_attemptReconnect c).
Proof.
  intros H. unfold _attemptReconnect.
  apply owned_setTimeout, owned_set_reconnectAttempts, H.
Qed.

Lemma owned_flush (queue : list QueueItem) :
  forall c : Client,
    (forall i, In i queue -> completion i = p -> message i = m) ->
    owned c -> owned (flush ws_send_throws queue c).
Proof.
  induction queue as [|item rest IH]; intros c Q H; cbn [flush]; [exact H|].
  apply IH.
  - intros i I. apply Q. now right.
  - apply owned__sendMessage.
    + apply Q. now left.
    + apply owned_set_messageQueue; [|exact H].
      intros i I. apply Q. now right.
Qed.

Lemma owned_on_open (q : PromiseId) (c : Client) :
  q <> p -> owned c -> owned (on_open ws_send_throws q c).
Proof.
  intros N H. unfold on_open.
  apply owned_resolve; [exact N|]. apply owned_emit, owned_flush.
  - cbn. apply (owned_queue _ _ _ _ H).
  - apply owned_set_reconnectAttempts, owned_set_isConnected, H.
Qed.

Lemma owned_on_close (code : Z) (reason : string) (c : Client) :
  owned c -> owned (on_close code reason c).
Proof.
  intros H. unfold on_close.
  match goal with |- context [if ?b then _ else _] => destruct b end;
    [apply owned__attemptReconnect|];
    apply owned_emit, owned_incr_disconnections, owned_set_isConnected, H.
Qed.

Lemma owned_on_error (q : PromiseId) (msg : string) (c : Client) :
  owned c -> owned (on_error q msg c).
Proof.
  intros H. unfold on_error. apply owned_reject, owned_emit, owned_incr_errors, H.
Qed.

Lemma owned_call_onMessage (h : Handler) (data : Incoming) :
  forall c : Client,
    resolves p h = false -> owned c -> owned (call_onMessage h data c).
Proof.
  induction h as [|messageId timeoutId q original IH]; intros c R H;
    cbn [call_onMessage].
  - apply owned_emit, H.
  - cbn in R. apply orb_false_elim in R as [R1 R2].
    apply Nat.eqb_neq in R1.
    destruct (JSON_parse data) as [parsedData|]; [|now apply IH].
    match goal with |- context [match ?t with _ => _ end] => destruct t as [[|]|] end.
    + apply owned_resolve; [exact R1|].
      apply owned_set_onMessage; [exact R2|]. apply owned_clearTimeout, H.
    + exact H.
    + now apply IH.
Qed.

Lemma owned_on_message (data : Incoming) (c : Client) :
  owned c -> owned (on_message data c).
Proof.
  intros H. unfold on_message. apply owned_call_onMessage.
  - exact (owned_handler _ _ _ _ H).
  - apply owned_incr_received, H.
Qed.

Lemma owned_run_catch (k : AckCatch) (error : string) (c : Client) :
  resolves p (catch_originalOnMessage k) = false ->
  owned c -> owned (run_catch k error c).
Proof.
  intros R H. unfold run_catch.
  apply owned_reject, owned_set_onMessage; [exact R|].
  apply owned_clearTimeout, H.
Qed.

Lemma owned_await (q : PromiseId) (k : AckCatch) (c : Client) :
  resolves p (catch_originalOnMessage k) = false ->
  owned c -> owned (await q k c).
Proof.
  intros R H. unfold await. destruct (promise_state q c); [|exact H|].
  - destruct H as [H1 H2 H3 H4 H5 H6 HQ H7]. constructor; cbn; auto.
    intros e I. apply in_app_or in I as [I|[<-|[]]]; auto.
  - destruct H as [H1 H2 H3 H4 H5 H6 HQ H7]. constructor; cbn; auto.
    intros j I. apply in_app_or in I as [I|[<-|[]]]; auto.
Qed.

Lemma owned_sendWithAck (msg : Value) (timeout : option Z)
  (now random : string) (c : Client) :
  owned c -> owned (snd (sendWithAck ws_send_throws msg timeout now random c)).
Proof.
  intros H. unfold sendWithAck.
  pose proof (owned_new_promise m p n0 c H) as H0.
  pose proof (owned_allocated _ _ _ _ H) as A.
  pose proof (owned_handler _ _ _ _ H) as R.
  unfold new_promise in *. cbn [fst snd] in *.
  match goal with
  | |- context [setTimeout ?task ?delay ?c0] =>
      pose proof (owned_setTimeout m p n0 task delay c0 H0) as H1;
      unfold setTimeout in *; cbn [fst snd] in *
  end.
  match goal with
  | |- context [send _ ?pl None (set_onMessage ?h ?c1)] =>
      assert (H2 : owned (set_onMessage h c1));
      [ apply owned_set_onMessage; [|exact H1];
        cbn; apply orb_false_intro; [apply Nat.eqb_neq; lia|exact R]
      | pose proof (owned_send pl None _ H2) as H3;
        destruct (send ws_send_throws pl None (set_onMessage h c1)) as [q c3] ]
  end.
  cbn [snd] in *. apply owned_await; [exact R|exact H3].
Qed.

Lemma owned_disconnect (c : Client) : owned c -> owned (disconnect c).
Proof.
  intros H. unfold disconnect. destruct (ws c); [|exact H].
  apply owned_set_isConnected, owned_emit, H.
Qed.

Lemma owned_timer_fires (id : TimerId) (thrown : option string) (c : Client) :
  owned c -> owned (timer_fires id thrown c).
Proof.
  intros H. unfold timer_fires. destruct (find _ (timers c)) as [t|]; [|exact H].
  pose proof (owned_clearTimeout m p n0 id c H) as H'.
  destruct (timer_task t).
  - apply owned_reject, H'.
  - match goal with |- context [if ?b then _ else _] => destruct b end;
      [apply owned_connect|]; exact H'.
Qed.

Lemma owned_handle (e : Event) (c : Client) :
  owned c -> owned (handle ws_send_throws e c).
Proof.
  intros H. destruct e; cbn [handle].
  - apply owned_connect, H.
  - apply owned_send, H.
  - apply owned_sendWithAck, H.
  - apply owned_disconnect, H.
  - destruct (nth_error (sockets c) s) as [q|] eqn:E; [|exact H].
    apply owned_on_open; [|exact H].
    intros ->. apply nth_error_In in E. exact (owned_sockets _ _ _ _ H E).
  - destruct (nth_error (sockets c) s); [|exact H]. apply owned_on_close, H.
  - destruct (nth_error (sockets c) s); [|exact H]. apply owned_on_error, H.
  - destruct (nth_error (sockets c) s); [|exact H]. apply owned_on_message, H.
  - apply owned_send_callback, H.
  - apply owned_timer_fires, H.
Qed.

Lemma owned_drain (fuel : nat) :
  forall c : Client, owned c -> owned (drain fuel c).
Proof.
  induction fuel as [|fuel IH]; intros c H; cbn [drain]; [exact H|].
  destruct (jobs c) as [|j rest] eqn:J; [exact H|].
  apply IH, owned_run_catch.
  - apply (owned_jobs _ _ _ _ H). rewrite J. now left.
  - destruct H as [H1 H2 H3 H4 H5 H6 HQ H7]. constructor; cbn; auto.
    intros j' I. apply H6. rewrite J. now right.
Qed.

Lemma owned_step (e : Event) (c : Client) :
  owned c -> owned (step ws_send_throws c e).
Proof.
  intros H. unfold step, run_jobs. apply owned_drain, owned_handle, H.
Qed.

Lemma owned_run (es : list Event) :
  forall c : Client, owned c -> owned (run ws_send_throws es c).
Proof.
  induction es as [|e es IH]; intros c H; cbn; [exact H|].
  apply IH, owned_step, H.
Qed.

(** The promise of an owned send is fulfilled only once its message was sent. *)
Lemma owned_fulfilled (c : Client) :
  owned c -> is_fulfilled (promise_state p c) = true -> sent_since m n0 c.
Proof.
  intros H F. destruct (owned_state _ _ _ _ H) as [S|[N _]]; [exact S|].
  congruence.
Qed.

End OwnedMethods.

(** *** While no socket opens, nothing is sent *)

Lemma ws_sends_skipn_app (n : nat) (l l' : list Effect) :
  n <= List.length l ->
  ws_sends (skipn n (l ++ l')) = (ws_sends (skipn n l) ++ ws_sends l')%list.
Proof.
  intros L. rewrite skipn_app, ws_sends_app.
  replace (n - List.length l) with 0 by lia. reflexivity.
Qed.

Section Waiting.
Variable ws_send_throws : nat -> option string.
Variables (item : QueueItem) (n0 : nat).

Local Abbreviation waiting := (waiting item n0).

Ltac frame H := destruct H; constructor; cbn in *; autorewrite with settle; auto.

Lemma waiting_emit (e : Effect) (c : Client) :
  is_ws_send e = false -> waiting c -> waiting (emit e c).
Proof.
  intros N H. destruct H as [H1 H2 H3 H4]. constructor; cbn; auto.
  - rewrite length_app. lia.
  - rewrite ws_sends_skipn_app, H3 by exact H2. destruct e; try discriminate; reflexivity.
Qed.

Lemma waiting_resolve q v c : waiting c -> waiting (resolve q v c).
Proof. intros H. frame H. Qed.
Lemma waiting_reject q msg c : waiting c -> waiting (reject q msg c).
Proof. intros H. frame H. Qed.
Lemma waiting_incr_errors c : waiting c -> waiting (incr_errors c).
Proof. intros H. frame H. Qed.
Lemma waiting_incr_sent c : waiting c -> waiting (incr_sent c).
Proof. intros H. frame H. Qed.
Lemma waiting_incr_received c : waiting c -> waiting (incr_received c).
Proof. intros H. frame H. Qed.
Lemma waiting_incr_connections c : waiting c -> waiting (incr_connections c).
Proof. intros H. frame H. Qed.
Lemma waiting_incr_disconnections c : waiting c -> waiting (incr_disconnections c).
Proof. intros H. frame H. Qed.
Lemma waiting_set_isConnected c : waiting c -> waiting (set_isConnected false c).
Proof. intros H. frame H. Qed.
Lemma waiting_set_reconnectAttempts z c :
  waiting c -> waiting (set_reconnectAttempts z c).
Proof. intros H. frame H. Qed.
Lemma waiting_set_ws s c : waiting c -> waiting (set_ws s c).
Proof. intros H. frame H. Qed.
Lemma waiting_set_sockets l c : waiting c -> waiting (set_sockets l c).
Proof. intros H. frame H. Qed.
Lemma waiting_set_inflight l c : waiting c -> waiting (set_inflight l c).
Proof. intros H. frame H. Qed.
Lemma waiting_set_onMessage h c : waiting c -> waiting (set_onMessage h c).
Proof. intros H. frame H. Qed.
Lemma waiting_set_promises l c : waiting c -> waiting (set_promises l c).
Proof. intros H. frame H. Qed.
Lemma waiting_set_jobs l c : waiting c -> waiting (set_jobs l c).
Proof. intros H. frame H. Qed.
Lemma waiting_setTimeout task delay c :
  waiting c -> waiting (snd (setTimeout task delay c)).
Proof. intros H. frame H. Qed.
Lemma waiting_clearTimeout id c : waiting c -> waiting (clearTimeout id c).
Proof. intros H. frame H. Qed.

Lemma waiting_await q k c : waiting c -> waiting (await q k c).
Proof.
  intros H. unfold await. destruct (promise_state q c); [|exact H|]; frame H.
Qed.

Lemma waiting_send (m' : Data) (queue : option bool) (c : Client) :
  waiting c -> waiting (snd (send ws_send_throws m' queue c)).
Proof.
  intros H. unfold send, new_promise. cbn [fst snd ws isConnected set_promises].
  rewrite (waiting_closed _ _ _ H).
  assert (K : waiting
                (snd match queue with
                     | Some false =>
                         (List.length (promises c),
                          reject (List.length (promises c))
                            "WebSocket is not connected"
                            (set_promises (promises c ++ [Pending]) c))
                     | _ =>
                         (List.length (promises c),
                          set_messageQueue
                            (messageQueue (set_promises (promises c ++ [Pending]) c) ++
                             [{| message := m';
                                 completion := List.length (promises c) |}])
                            (set_promises (promises c ++ [Pending]) c))
                     end)).
  { destruct queue as [[|]|]; cbn [snd];
      try (apply waiting_reject, waiting_set_promises, H);
      destruct H as [H1 H2 H3 H4]; constructor; cbn; auto;
      apply in_or_app; now left. }
  destruct (ws c); exact K.
Qed.

Lemma waiting_sendWithAck (msg : Value) (timeout : option Z)
  (now random : string) (c : Client) :
  waiting c -> waiting (snd (sendWithAck ws_send_throws msg timeout now random c)).
Proof.
  intros H. unfold sendWithAck, new_promise, setTimeout. cbn [fst snd].
  match goal with
  | |- context [send _ ?pl None ?c1] =>
      assert (H2 : waiting c1) by (frame H);
      pose proof (waiting_send pl None _ H2) as H3;
      destruct (send ws_send_throws pl None c1) as [q c3]
  end.
  cbn [snd] in *. apply waiting_await, H3.
Qed.

Lemma waiting_connect (thrown : option string) (c : Client) :
  waiting c -> waiting (snd (connect thrown c)).
Proof.
  intros H. unfold connect, new_promise. cbn [fst snd].
  destruct thrown; cbn [snd].
  - apply waiting_reject, waiting_set_promises, H.
  - apply waiting_incr_connections, waiting_set_sockets, waiting_emit;
      [reflexivity|]. apply waiting_set_ws, waiting_set_promises, H.
Qed.

Lemma waiting_on_close (code : Z) (reason : string) (c : Client) :
  waiting c -> waiting (on_close code reason c).
Proof.
  intros H. unfold on_close, _attemptReconnect.
  match goal with |- context [if ?b then _ else _] => destruct b end;
    [apply waiting_setTimeout, waiting_set_reconnectAttempts|];
    (apply waiting_emit; [reflexivity|]);
    apply waiting_incr_disconnections, waiting_set_isConnected, H.
Qed.

Lemma waiting_call_onMessage (h : Handler) (data : Incoming) :
  forall c : Client, waiting c -> waiting (call_onMessage h data c).
Proof.
  induction h as [|messageId timeoutId q original IH]; intros c H;
    cbn [call_onMessage].
  - apply waiting_emit; [reflexivity|exact H].
  - destruct (JSON_parse data) as [parsedData|]; [|now apply IH].
    match goal with |- context [match ?t with _ => _ end] => destruct t as [[|]|] end.
    + apply waiting_resolve, waiting_set_onMessage, waiting_clearTimeout, H.
    + exact H.
    + now apply IH.
Qed.

Lemma waiting_send_callback (tok : Token) (error : option string) (c : Client) :
  waiting c -> waiting (send_callback tok error c).
Proof.
  intros H. unfold send_callback.
  destruct (lookup_token tok (inflight c)); [|exact H].
  destruct error.
  - apply waiting_reject, waiting_incr_errors, waiting_set_inflight, H.
  - apply waiting_resolve, waiting_incr_sent, waiting_set_inflight, H.
Qed.

Lemma waiting_timer_fires (id : TimerId) (thrown : option string) (c : Client) :
  waiting c -> waiting (timer_fires id thrown c).
Proof.
  intros H. unfold timer_fires. destruct (find _ (timers c)) as [t|]; [|exact H].
  destruct (timer_task t).
  - apply waiting_reject, waiting_clearTimeout, H.
  - match goal with |- context [if ?b then _ else _] => destruct b end;
      [apply waiting_connect|]; apply waiting_clearTimeout, H.
Qed.

Lemma waiting_handle (e : Event) (c : Client) :
  is_socket_open e = false ->
  waiting c -> waiting (handle ws_send_throws e c).
Proof.
  intros N H. destruct e; cbn [handle]; try discriminate N.
  - apply waiting_connect, H.
  - apply waiting_send, H.
  - apply waiting_sendWithAck, H.
  - unfold disconnect. destruct (ws c); [|exact H].
    apply waiting_set_isConnected, waiting_emit; [reflexivity|exact H].
  - destruct (nth_error (sockets c) s); [|exact H]. apply waiting_on_close, H.
  - destruct (nth_error (sockets c) s); [|exact H].
    unfold on_error. apply waiting_reject, waiting_emit; [reflexivity|].
    apply waiting_incr_errors, H.
  - destruct (nth_error (sockets c) s); [|exact H].
    unfold on_message. apply waiting_call_onMessage, waiting_incr_received, H.
  - apply waiting_send_callback, H.
  - apply waiting_timer_fires, H.
Qed.

Lemma waiting_drain (fuel : nat) :
  forall c : Client, waiting c -> waiting (drain fuel c).
Proof.
  induction fuel as [|fuel IH]; intros c H; cbn [drain]; [exact H|].
  destruct (jobs c) as [|j rest]; [exact H|].
  apply IH. unfold run_catch.
  apply waiting_reject, waiting_set_onMessage, waiting_clearTimeout,
    waiting_set_jobs, H.
Qed.

Lemma waiting_run (es : list Event) :
  forall c : Client,
    existsb is_socket_open es = false ->
    waiting c -> waiting (run ws_send_throws es c).
Proof.
  induction es as [|e es IH]; intros c N H; cbn; [exact H|].
  cbn in N. apply orb_false_elim in N as [N1 N2].
  apply IH; [exact N2|]. unfold step, run_jobs.
  apply waiting_drain, waiting_handle; assumption.
Qed.

End Waiting.

(** *** Every state a client goes through is well formed *)

Lemma handler_bounded_mono (n n' : nat) (h : Handler) :
  n <= n' -> handler_bounded n h = true -> handler_bounded n' h = true.
Proof.
  intros L. induction h as [|messageId timeoutId q original IH]; cbn; intros H.
  - reflexivity.
  - apply andb_prop in H as [H1 H2]. apply Nat.ltb_lt in H1.
    rewrite (IH H2), andb_true_r. apply Nat.ltb_lt. lia.
Qed.

Section Sound.
Variable ws_send_throws : nat -> option string.

Ltac frame H := destruct H; constructor; cbn in *; auto.

Lemma sound_emit e c : sound c -> sound (emit e c).
Proof. intros H. frame H. Qed.
Lemma sound_incr_errors c : sound c -> sound (incr_errors c).
Proof. intros H. frame H. Qed.
Lemma sound_incr_sent c : sound c -> sound (incr_sent c).
Proof. intros H. frame H. Qed.
Lemma sound_incr_received c : sound c -> sound (incr_received c).
Proof. intros H. frame H. Qed.
Lemma sound_incr_connections c : sound c -> sound (incr_connections c).
Proof. intros H. frame H. Qed.
Lemma sound_incr_disconnections c : sound c -> sound (incr_disconnections c).
Proof. intros H. frame H. Qed.
Lemma sound_set_reconnectAttempts z c : sound c -> sound (set_reconnectAttempts z c).
Proof. intros H. frame H. Qed.
Lemma sound_set_sendCalls n c : sound c -> sound (set_sendCalls n c).
Proof. intros H. frame H. Qed.

Lemma sound_set_isConnected b c :
  (b = true -> ws c <> None) -> sound c -> sound (set_isConnected b c).
Proof.
  intros B H. destruct H as [H1 H2 H3 H4 H5 H6 H7 H8]. constructor; cbn; auto.
  intros E. split; [now apply H8|]. destruct b; [|reflexivity].
  now destruct (B eq_refl).
Qed.

Lemma sound_new_promise c : sound c -> sound (snd (new_promise c)).
Proof.
  intros H. destruct H as [H1 H2 H3 H4 H5 H6 H7 H8].
  constructor; cbn; rewrite ?length_app; cbn; auto.
  - intros e I. destruct (H2 e I) as [A B]. split; [lia|].
    eapply handler_bounded_mono; [|exact B]. lia.
  - intros j I. eapply handler_bounded_mono; [|exact (H3 j I)]. lia.
  - intros q I. specialize (H4 q I). lia.
  - intros e I. specialize (H5 e I). lia.
  - intros i I. specialize (H6 i I). lia.
  - eapply handler_bounded_mono; [|exact H7]. lia.
Qed.

Lemma sound_resolve q v c : sound c -> sound (resolve q v c).
Proof.
  intros H. unfold resolve. destruct (promise_state q c); auto.
  destruct H as [H1 H2 H3 H4 H5 H6 H7 H8].
  constructor; cbn; rewrite ?length_update_nth; auto.
  intros e I. apply H2. eapply In_drop_awaiting; eauto.
Qed.

Lemma sound_reject q msg c : sound c -> sound (reject q msg c).
Proof.
  intros H. unfold reject. destruct (promise_state q c); auto.
  destruct H as [H1 H2 H3 H4 H5 H6 H7 H8].
  constructor; cbn; rewrite ?length_update_nth; auto.
  - intros e I. apply H2. eapply In_drop_awaiting; eauto.
  - intros j I. apply in_app_or in I as [I|I]; [auto|].
    apply in_map_iff in I as (k & <- & I). cbn.
    apply In_take_awaiting in I as (e & I & <-). now apply H2.
Qed.

Lemma sound_setTimeout task delay c : sound c -> sound (snd (setTimeout task delay c)).
Proof.
  intros H. destruct H as [H1 H2 H3 H4 H5 H6 H7 H8]. constructor; cbn; auto.
  intros t I. apply in_app_or in I as [I|[<-|[]]]; cbn; [|lia].
  specialize (H1 t I). lia.
Qed.

Lemma sound_clearTimeout id c : sound c -> sound (clearTimeout id c).
Proof.
  intros H. destruct H as [H1 H2 H3 H4 H5 H6 H7 H8]. constructor; cbn; auto.
  intros t I. apply filter_In in I as [I _]. auto.
Qed.

Lemma sound_set_onMessage h c :
  handler_bounded (List.length (promises c)) h = true ->
  sound c -> sound (set_onMessage h c).
Proof. intros B H. frame H. Qed.

Lemma sound_set_messageQueue l c :
  (forall i, In i l -> completion i < List.length (promises c)) ->
  sound c -> sound (set_messageQueue l c).
Proof. intros B H. frame H. Qed.

Lemma sound_set_inflight l c :
  (forall e, In e l -> snd e < List.length (promises c)) ->
  sound c -> sound (set_inflight l c).
Proof. intros B H. frame H. Qed.

Lemma sound_set_jobs l c :
  (forall j, In j l -> In j (jobs c)) -> sound c -> sound (set_jobs l c).
Proof. intros B H. frame H. Qed.

Lemma sound__sendMessage m q c :
  q < List.length (promises c) -> sound c ->
  sound (_sendMessage ws_send_throws m q c).
Proof.
  intros Q H. unfold _sendMessage. destruct (ws c).
  - destruct (ws_send_throws (sendCalls c)).
    + apply sound_reject, sound_incr_errors, sound_emit, sound_set_sendCalls, H.
    + apply sound_set_inflight; [|apply sound_emit, sound_set_sendCalls, H].
      cbn. intros e I. apply in_app_or in I as [I|[<-|[]]]; [|exact Q].
      exact (sound_inflight _ H e I).
  - apply sound_reject, sound_incr_errors, H.
Qed.

Lemma sound_send_callback tok error c : sound c -> sound (send_callback tok error c).
Proof.
  intros H. unfold send_callback.
  destruct (lookup_token tok (inflight c)); [|exact H].
  assert (H' : sound (set_inflight (remove_token tok (inflight c)) c)).
  { apply sound_set_inflight; [|exact H]. intros e I.
    apply filter_In in I as [I _]. exact (sound_inflight _ H e I). }
  destruct error.
  - apply sound_reject, sound_incr_errors, H'.
  - apply sound_resolve, sound_incr_sent, H'.
Qed.

Lemma sound_send m queue c :
  sound c ->
  sound (snd (send ws_send_throws m queue c))
  /\ fst (send ws_send_throws m queue c) <
       List.length (promises (snd (send ws_send_throws m queue c)))
  /\ onMessage (snd (send ws_send_throws m queue c)) = onMessage c
  /\ List.length (promises c) <=
       List.length (promises (snd (send ws_send_throws m queue c))).
Proof.
  intros H. unfold send.
  pose proof (sound_new_promise c H) as H'.
  unfold new_promise in *. cbn [fst snd] in *.
  cbn [ws isConnected set_promises].
  assert (L : List.length (promises c) <
              List.length (promises (set_promises (promises c ++ [Pending]) c))).
  { cbn. rewrite length_app. cbn. lia. }
  assert (K : forall x : PromiseId * Client,
             sound (snd x) ->
             fst x = List.length (promises c) ->
             List.length (promises (snd x)) = S (List.length (promises c)) ->
             onMessage (snd x) = onMessage c ->
             sound (snd x) /\ fst x < List.length (promises (snd x))
             /\ onMessage (snd x) = onMessage c
             /\ List.length (promises c) <= List.length (promises (snd x))).
  { intros x A B C D. rewrite B, C.
    split; [exact A|]. split; [lia|]. split; [exact D|lia]. }
  assert (R : forall q msg c', List.length (promises (reject q msg c')) =
                               List.length (promises c')).
  { intros q msg c'. unfold reject. destruct (promise_state q c'); cbn;
      rewrite ?length_update_nth; reflexivity. }
  assert (Q : forall q : option bool,
             let x := match q with
                      | Some false =>
                          (List.length (promises c),
                           reject (List.length (promises c))
                             "WebSocket is not connected"
                             (set_promises (promises c ++ [Pending]) c))
                      | _ =>
                          (List.length (promises c),
                           set_messageQueue
                             (messageQueue (set_promises (promises c ++ [Pending]) c) ++
                              [{| message := m;
                                  completion := List.length (promises c) |}])
                             (set_promises (promises c ++ [Pending]) c))
                      end in
             sound (snd x) /\ fst x < List.length (promises (snd x))
             /\ onMessage (snd x) = onMessage c
             /\ List.length (promises c) <= List.length (promises (snd x))).
  { assert (QQ : sound
                   (set_messageQueue
                      (messageQueue (set_promises (promises c ++ [Pending]) c) ++
                       [{| message := m; completion := List.length (promises c) |}])
                      (set_promises (promises c ++ [Pending]) c))).
    { apply sound_set_messageQueue; [|exact H'].
      cbn. rewrite length_app. cbn.
      intros i I. apply in_app_or in I as [I|[<-|[]]]; cbn; [|lia].
      pose proof (sound_queue _ H i I). lia. }
    intros [[|]|]; cbn zeta; apply K; cbn [fst snd]; try exact QQ;
      try reflexivity;
      try (cbn; rewrite length_app; cbn; lia).
    - apply sound_reject, H'.
    - rewrite R. cbn. rewrite length_app. cbn. lia.
    - now autorewrite with settle. }
  destruct (ws c) as [s|] eqn:W; [destruct (isConnected c)|];
    [|apply Q|apply Q].
  apply K; cbn [fst snd].
  - apply sound__sendMessage; [exact L|exact H'].
  - reflexivity.
  - unfold _sendMessage. cbn. rewrite W.
    destruct (ws_send_throws (sendCalls c)); rewrite ?R; cbn;
      rewrite length_app; cbn; lia.
  - unfold _sendMessage. cbn. rewrite W.
    destruct (ws_send_throws (sendCalls c)); autorewrite with settle; reflexivity.
Qed.

Lemma sound_connect thrown c : sound c -> sound (snd (connect thrown c)).
Proof.
  intros H. unfold connect.
  pose proof (sound_new_promise c H) as H'.
  unfold new_promise in *. cbn [fst snd] in *.
  destruct thrown; cbn [snd].
  - apply sound_reject, H'.
  - apply sound_incr_connections.
    destruct H' as [H1 H2 H3 H4 H5 H6 H7 H8]. constructor; cbn in *; auto.
    + intros q I. apply in_app_or in I as [I|[<-|[]]]; auto.
      rewrite length_app. cbn. lia.
    + discriminate.
Qed.

Lemma sound_flush (queue : list QueueItem) :
  forall c : Client,
    (forall i, In i queue -> completion i < List.length (promises c)) ->
    sound c ->
    sound (flush ws_send_throws queue c).
Proof.
  induction queue as [|item rest IH]; intros c Q H; cbn [flush]; [exact H|].
  assert (L : forall m q c', List.length (promises (_sendMessage ws_send_throws m q c')) =
                             List.length (promises c')).
  { intros m q c'. unfold _sendMessage.
    assert (R : forall q msg c', List.length (promises (reject q msg c')) =
                                 List.length (promises c')).
    { intros q0 msg c0. unfold reject. destruct (promise_state q0 c0); cbn;
        rewrite ?length_update_nth; reflexivity. }
    destruct (ws c'); [destruct (ws_send_throws (sendCalls c'))|];
      rewrite ?R; reflexivity. }
  apply IH.
  - intros i I. rewrite L. cbn. apply Q. now right.
  - apply sound__sendMessage.
    + cbn. apply Q. now left.
    + apply sound_set_messageQueue; [|exact H].
      intros i I. apply Q. now right.
Qed.

Lemma sound_on_open q c : ws c <> None -> sound c -> sound (on_open ws_send_throws q c).
Proof.
  intros W H. unfold on_open.
  apply sound_resolve, sound_emit, sound_flush.
  - cbn. exact (sound_queue _ H).
  - apply sound_set_reconnectAttempts, sound_set_isConnected; [auto|exact H].
Qed.

Lemma sound_on_close code reason c : sound c -> sound (on_close code reason c).
Proof.
  intros H. unfold on_close, _attemptReconnect.
  match goal with |- context [if ?b then _ else _] => destruct b end;
    [apply sound_setTimeout, sound_set_reconnectAttempts|];
    apply sound_emit, sound_incr_disconnections, sound_set_isConnected;
    try discriminate; exact H.
Qed.

Lemma sound_call_onMessage (h : Handler) (data : Incoming) :
  forall c : Client,
    handler_bounded (List.length (promises c)) h = true ->
    sound c -> sound (call_onMessage h data c).
Proof.
  induction h as [|messageId timeoutId q original IH]; intros c B H;
    cbn [call_onMessage].
  - apply sound_emit, H.
  - cbn in B. apply andb_prop in B as [B1 B2].
    destruct (JSON_parse data) as [parsedData|]; [|now apply IH].
    match goal with |- context [match ?t with _ => _ end] => destruct t as [[|]|] end.
    + apply sound_resolve, sound_set_onMessage; [exact B2|].
      apply sound_clearTimeout, H.
    + exact H.
    + now apply IH.
Qed.

Lemma sound_run_catch k error c :
  handler_bounded (List.length (promises c)) (catch_originalOnMessage k) = true ->
  sound c -> sound (run_catch k error c).
Proof.
  intros B H. unfold run_catch.
  apply sound_reject, sound_set_onMessage; [exact B|].
  apply sound_clearTimeout, H.
Qed.

Lemma sound_await q k c :
  q < List.length (promises c) ->
  handler_bounded (List.length (promises c)) (catch_originalOnMessage k) = true ->
  sound c -> sound (await q k c).
Proof.
  intros Q B H. unfold await. destruct (promise_state q c); [|exact H|];
    destruct H as [H1 H2 H3 H4 H5 H6 H7 H8]; constructor; cbn; auto.
  - intros e I. apply in_app_or in I as [I|[<-|[]]]; auto.
  - intros j I. apply in_app_or in I as [I|[<-|[]]]; auto.
Qed.

Lemma sound_sendWithAck msg timeout now random c :
  sound c -> sound (snd (sendWithAck ws_send_throws msg timeout now random c)).
Proof.
  intros H. unfold sendWithAck.
  pose proof (sound_new_promise c H) as H0.
  pose proof (sound_handler _ H) as B.
  unfold new_promise in *. cbn [fst snd] in *.
  match goal with
  | |- context [setTimeout ?task ?delay ?c0] =>
      pose proof (sound_setTimeout task delay c0 H0) as H1;
      unfold setTimeout in *; cbn [fst snd] in *
  end.
  assert (B' : handler_bounded (S (List.length (promises c))) (onMessage c) = true).
  { eapply handler_bounded_mono; [|exact B]. lia. }
  match goal with
  | |- context [send _ ?pl None (set_onMessage ?h ?c1)] =>
      assert (H2 : sound (set_onMessage h c1));
      [ apply sound_set_onMessage; [|exact H1];
        replace (List.length (promises c1)) with (S (List.length (promises c)))
          by (cbn; rewrite length_app; cbn; lia);
        cbn [handler_bounded]; apply andb_true_intro;
        split; [apply Nat.ltb_lt; lia|exact B']
      | destruct (sound_send pl None _ H2) as (H3 & H4 & _ & H5);
        destruct (send ws_send_throws pl None (set_onMessage h c1)) as [q c3] ]
  end.
  cbn [fst snd] in *. apply sound_await; [exact H4| |exact H3].
  cbn in *. eapply handler_bounded_mono; [|exact B].
  rewrite length_app in H5. cbn in H5. lia.
Qed.

Lemma sound_timer_fires id thrown c : sound c -> sound (timer_fires id thrown c).
Proof.
  intros H. unfold timer_fires. destruct (find _ (timers c)) as [t|]; [|exact H].
  pose proof (sound_clearTimeout id c H) as H'.
  destruct (timer_task t).
  - apply sound_reject, H'.
  - match goal with |- context [if ?b then _ else _] => destruct b end;
      [apply sound_connect|]; exact H'.
Qed.

Lemma sound_handle e c : sound c -> sound (handle ws_send_throws e c).
Proof.
  intros H. destruct e; cbn [handle].
  - apply sound_connect, H.
  - apply sound_send, H.
  - apply sound_sendWithAck, H.
  - unfold disconnect. destruct (ws c); [|exact H].
    apply sound_set_isConnected; [discriminate|]. apply sound_emit, H.
  - destruct (nth_error (sockets c) s) as [q|] eqn:E; [|exact H].
    apply sound_on_open; [|exact H].
    intros W. destruct (sound_ws _ H W) as [S _]. rewrite S in E.
    destruct s; discriminate.
  - destruct (nth_error (sockets c) s); [|exact H]. apply sound_on_close, H.
  - destruct (nth_error (sockets c) s); [|exact H].
    unfold on_error. apply sound_reject, sound_emit, sound_incr_errors, H.
  - destruct (nth_error (sockets c) s); [|exact H].
    unfold on_message. apply sound_call_onMessage.
    + exact (sound_handler _ H).
    + apply sound_incr_received, H.
  - apply sound_send_callback, H.
  - apply sound_timer_fires, H.
Qed.

(** Draining: soundness is kept, and with enough fuel no job is left. *)
Lemma length_take_drop q (l : list (PromiseId * AckCatch)) :
  List.length (take_awaiting q l) + List.length (drop_awaiting q l) = List.length l.
Proof.
  unfold take_awaiting, drop_awaiting. rewrite length_map.
  induction l as [|e l IH]; cbn [filter List.length]; [reflexivity|].
  match goal with |- context [if ?b then _ else _] => destruct b end;
    cbn [negb List.length]; lia.
Qed.

Lemma reject_measure q msg c :
  List.length (jobs (reject q msg c)) + List.length (awaiting (reject q msg c)) =
  List.length (jobs c) + List.length (awaiting c).
Proof.
  unfold reject. destruct (promise_state q c); cbn; try reflexivity.
  rewrite length_app, length_map.
  pose proof (length_take_drop q (awaiting c)). lia.
Qed.

Lemma sound_drain (fuel : nat) :
  forall c : Client,
    sound c ->
    sound (drain fuel c)
    /\ (List.length (jobs c) + List.length (awaiting c) <= fuel ->
        jobs (drain fuel c) = []).
Proof.
  induction fuel as [|fuel IH]; intros c H; cbn [drain].
  - split; [exact H|]. intros L. destruct (jobs c); [reflexivity|cbn in L; lia].
  - destruct (jobs c) as [|j rest] eqn:J; [now split|].
    assert (H' : sound (run_catch (fst j) (snd j) (set_jobs rest c))).
    { apply sound_run_catch.
      - cbn. apply (sound_jobs _ H). rewrite J. now left.
      - apply sound_set_jobs; [|exact H]. intros j' I. rewrite J. now right. }
    destruct (IH _ H') as [A B]. split; [exact A|].
    intros L. apply B. unfold run_catch. rewrite reject_measure. cbn.
    cbn in L. lia.
Qed.

Lemma wf_sound (c : Client) : wf c = true <-> sound c /\ jobs c = [].
Proof.
  split.
  - intros W. destruct (wf_parts c W) as (WT & WA & WS & WI & WQ & WH & WJ & WW).
    rewrite forallb_forall in WT, WA, WS, WI, WQ.
    split; [|exact WJ]. constructor; auto.
    + intros t I. now apply Nat.ltb_lt, WT.
    + intros e I. apply WA, andb_prop in I as [A B]. apply Nat.ltb_lt in A. auto.
    + rewrite WJ. intros j [].
    + intros q I. now apply Nat.ltb_lt, WS.
    + intros e I. now apply Nat.ltb_lt, WI.
    + intros i I. now apply Nat.ltb_lt, WQ.
  - intros [[H1 H2 H3 H4 H5 H6 H7 H8] J]. unfold wf.
    assert (T : forallb (fun t => (timer_id t <? nextTimer c)%nat) (timers c) = true).
    { apply forallb_forall. intros x I. now apply Nat.ltb_lt, H1. }
    assert (A : forallb
                  (fun e => (fst e <? List.length (promises c))%nat
                            && handler_bounded (List.length (promises c))
                                 (catch_originalOnMessage (snd e)))
                  (awaiting c) = true).
    { apply forallb_forall. intros x I. destruct (H2 x I) as [A B].
      apply andb_true_intro. split; [now apply Nat.ltb_lt|exact B]. }
    assert (S : forallb (fun q => (q <? List.length (promises c))%nat) (sockets c)
                = true).
    { apply forallb_forall. intros x I. now apply Nat.ltb_lt, H4. }
    assert (F : forallb (fun e => (snd e <? List.length (promises c))%nat)
                  (inflight c) = true).
    { apply forallb_forall. intros x I. now apply Nat.ltb_lt, H5. }
    assert (Q : forallb (fun i => (completion i <? List.length (promises c))%nat)
                  (messageQueue c) = true).
    { apply forallb_forall. intros x I. now apply Nat.ltb_lt, H6. }
    rewrite T, A, S, F, Q, H7, J. cbn.
    destruct (ws c); [reflexivity|]. destruct (H8 eq_refl) as [E ->].
    rewrite E in *. reflexivity.
Qed.

Lemma wf_step (c : Client) (e : Event) :
  wf c = true -> wf (step ws_send_throws c e) = true.
Proof.
  intros W. apply wf_sound in W as [H _]. apply wf_sound.
  unfold step, run_jobs.
  destruct (sound_drain
              (List.length (jobs (handle ws_send_throws e c)) +
               List.length (awaiting (handle ws_send_throws e c)))
              _ (sound_handle e c H)) as [A B].
  split; [exact A|]. apply B. lia.
Qed.

Lemma wf_run (es : list Event) :
  forall c : Client, wf c = true -> wf (run ws_send_throws es c) = true.
Proof.
  induction es as [|e es IH]; intros c W; cbn; [exact W|].
  apply IH, wf_step, W.
Qed.

Lemma wf_constructor (options : Options) : wf (constructor options) = true.
Proof. reflexivity. Qed.

(** Every state a client goes through is well formed. *)
Lemma reachable_wf (c : Client) : reachable ws_send_throws c -> wf c = true.
Proof.
  intros (options & es & ->). apply wf_run, wf_constructor.
Qed.

End Sound.

Lemma new_client_reachable :
  reachable never_throws (constructor default_options).
Proof. exists default_options, []. reflexivity. Qed.

Lemma open_client_reachable : reachable never_throws open_client.
Proof.
  exists default_options, [Call_connect None; Socket_open 0]. reflexivity.
Qed.

(** *** The timeout of sendWithAck *)

Section Timeout.
Variable ws_send_throws : nat -> option string.

(** What a call of [sendWithAck] whose [ws.send] does not throw leaves. *)
Lemma sendWithAck_installs (c : Client) (msg : Value) (timeout : option Z)
  (now random : string) :
  ws_send_throws (sendCalls c) = None ->
  let p := List.length (promises c) in
  let c1 := snd (sendWithAck ws_send_throws msg timeout now random c) in
  onMessage c1 =
    AckInterceptor ("msg_" ++ now ++ "_" ++ random) (nextTimer c) p (onMessage c)
  /\ timers c1 =
       (timers c ++
        [{| timer_id := nextTimer c;
            timer_delay := match timeout with Some t => t | None => 5000%Z end;
            timer_task := AckTimeout p |}])%list
  /\ promises c1 = ((promises c ++ [Pending]) ++ [Pending])%list
  /\ jobs c1 = jobs c
  /\ awaiting c1 =
       (awaiting c ++
        [(S p, {| catch_timeoutId := nextTimer c;
                  catch_originalOnMessage := onMessage c;
                  catch_reject := p |})])%list.
Proof.
  intros T. cbn zeta.
  unfold sendWithAck, new_promise, setTimeout, send, new_promise.
  cbn [fst snd ws isConnected set_promises set_timers set_nextTimer
       set_onMessage promises onMessage timers nextTimer].
  destruct (ws c) as [s|] eqn:Ws; [destruct (isConnected c) eqn:I|].
  - unfold _sendMessage. cbn. rewrite Ws, T.
    unfold await, promise_state. cbn.
    rewrite length_app, Nat.add_1_r, nth_fresh2. cbn. repeat split.
  - unfold await, promise_state. cbn.
    rewrite length_app, Nat.add_1_r, nth_fresh2. cbn. repeat split.
  - unfold await, promise_state. cbn.
    rewrite length_app, Nat.add_1_r, nth_fresh2. cbn. repeat split.
Qed.

(** C2, where the code departs from the claim.  When a [sendWithAck] whose
    send did not fail ends by its timeout, the promise is rejected and the
    timer is gone, but [this.callbacks.onMessage] is still the interceptor
    the call installed, one level above the callback that was in force
    before the call. *)
Theorem timeout_leaves_the_interceptor (c : Client) (msg : Value)
  (timeout : option Z) (now random : string) (thrown : option string) :
  reachable ws_send_throws c ->
  ws_send_throws (sendCalls c) = None ->
  let p := List.length (promises c) in
  let c1 := step ws_send_throws c (Call_sendWithAck msg timeout now random) in
  let c2 := step ws_send_throws c1 (Timer_fires (nextTimer c) thrown) in
  onMessage c1 =
    AckInterceptor ("msg_" ++ now ++ "_" ++ random) (nextTimer c) p (onMessage c)
  /\ promise_state p c2 = Rejected "Message acknowledgment timeout"
  /\ timers c2 = timers c
  /\ onMessage c2 = onMessage c1
  /\ depth (onMessage c2) = S (depth (onMessage c)).
Proof.
  intros R T. pose proof (reachable_wf ws_send_throws c R) as W. cbn zeta.
  destruct (wf_parts c W) as (WT & WA & _ & _ & _ & _ & WJ & _).
  destruct (sendWithAck_installs c msg timeout now random T)
    as (H1 & H2 & H3 & H4 & H5).
  set (c1 := snd (sendWithAck ws_send_throws msg timeout now random c)) in *.
  assert (E1 : step ws_send_throws c (Call_sendWithAck msg timeout now random) = c1).
  { unfold step. cbn [handle]. fold c1. apply run_jobs_no_jobs. congruence. }
  rewrite E1. split; [exact H1|].
  unfold step. cbn [handle]. unfold timer_fires.
  rewrite H2. erewrite find_timer_fresh; [|reflexivity|exact WT].
  cbn [timer_task].
  set (c1' := clearTimeout (nextTimer c) c1).
  assert (A1 : forallb (fun e => negb (Nat.eqb (fst e) (List.length (promises c))))
                 (awaiting c1') = true).
  { subst c1'. cbn [awaiting clearTimeout set_timers]. rewrite H5, forallb_app.
    apply andb_true_intro. split.
    - apply (awaiting_not_fresh c _ W (le_n _)).
    - cbn [forallb fst]. destruct (Nat.eqb_spec (S (List.length (promises c)))
                       (List.length (promises c))); [lia|reflexivity]. }
  destruct (reject_unawaited (List.length (promises c))
              "Message acknowledgment timeout" c1') as (R1 & R2 & R3).
  { subst c1'. cbn. rewrite H3, !length_app. cbn. lia. }
  { subst c1'. unfold promise_state. cbn. rewrite H3. apply nth_fresh1. }
  { exact A1. }
  rewrite run_jobs_no_jobs.
  2:{ rewrite R2. subst c1'. cbn. congruence. }
  rewrite R1, onMessage_reject, timers_reject. subst c1'. cbn.
  rewrite H2. erewrite clear_timer_fresh; [|reflexivity|exact WT].
  rewrite H1. repeat split.
Qed.

End Timeout.

(** C2, on an open connection with the application's callback in force. *)
Lemma timeout_leaves_the_interceptor_example :
  onMessage open_client = UserOnMessage
  /\ onMessage
       (step never_throws waiting_client (Timer_fires 0 None)) =
     AckInterceptor "msg_1_0.5" 0 1 UserOnMessage
  /\ promise_state 1
       (step never_throws waiting_client (Timer_fires 0 None)) =
     Rejected "Message acknowledgment timeout".
Proof.
  pose proof (timeout_leaves_the_interceptor never_throws open_client
                (Object [("a", Null)]) None "1" "0.5" None
                open_client_reachable eq_refl) as H.
  cbv zeta in H. destruct H as (H1 & H2 & _ & H4 & _).
  split; [reflexivity|]. split; [|exact H2].
  exact (eq_trans H4 H1).
Defined.

(** C2, the two ways of settling that do restore the callback: the matching
    acknowledgment, and the failure of the send. *)
Lemma interceptor_removed_on_ack_and_on_failure :
  onMessage (step never_throws waiting_client (Socket_message 0 ack_frame)) =
    UserOnMessage
  /\ promise_state 1
       (step never_throws waiting_client (Socket_message 0 ack_frame)) =
     Fulfilled (Object [("ack", Boolean true); ("id", Str "msg_1_0.5")])
  /\ onMessage (step never_throws waiting_client (Send_callback 0 (Some "EPIPE"))) =
     UserOnMessage
  /\ promise_state 1
       (step never_throws waiting_client (Send_callback 0 (Some "EPIPE"))) =
     Rejected "EPIPE".
Proof. repeat split. Qed.

(** *** send while the connection is not open *)

Lemma bounded_not_resolved (n p : nat) (h : Handler) :
  n <= p -> handler_bounded n h = true -> resolves p h = false.
Proof.
  intros L. induction h as [|messageId timeoutId q original IH]; cbn; intros H.
  - reflexivity.
  - apply andb_prop in H as [H1 H2]. apply Nat.ltb_lt in H1.
    rewrite (IH H2). destruct (Nat.eqb_spec q p); [lia|reflexivity].
Qed.

Section SendWhileClosed.
Variable ws_send_throws : nat -> option string.

(** A send that is queued owns its promise. *)
Lemma queued_send_is_owned (c : Client) (m : Data) (queue : option bool) :
  wf c = true -> is_open c = false -> queue_enabled queue = true ->
  owned m (List.length (promises c)) (List.length (log c))
    (snd (send ws_send_throws m queue c)).
Proof.
  intros W O Q. rewrite (send_queues ws_send_throws m queue c O Q). cbn [snd].
  destruct (wf_parts c W) as (_ & WA & WS & WI & WQ & WH & WJ & _).
  rewrite forallb_forall in WA, WS, WI, WQ.
  constructor; cbn.
  - rewrite length_app. cbn. lia.
  - lia.
  - intros I. apply WS, Nat.ltb_lt in I. lia.
  - now apply (bounded_not_resolved (List.length (promises c))).
  - intros e I. apply WA, andb_prop in I as [_ I].
    now apply (bounded_not_resolved (List.length (promises c))).
  - rewrite WJ. intros j [].
  - intros i I E. apply in_app_or in I as [I|[<-|[]]]; [|reflexivity].
    apply WQ, Nat.ltb_lt in I. lia.
  - right. split.
    + unfold promise_state. cbn. now rewrite nth_fresh.
    + intros tok I. apply WI, Nat.ltb_lt in I. cbn in I. lia.
Qed.

Lemma queued_send_is_waiting (c : Client) (m : Data) (queue : option bool) :
  is_open c = false -> queue_enabled queue = true ->
  isConnected c = false ->
  waiting {| message := m; completion := List.length (promises c) |}
    (List.length (log c)) (snd (send ws_send_throws m queue c)).
Proof.
  intros O Q I. rewrite (send_queues ws_send_throws m queue c O Q). cbn [snd].
  constructor; cbn; auto.
  - now rewrite skipn_all.
  - apply in_or_app. right. now left.
Qed.

Lemma closed_of_wf (c : Client) :
  wf c = true -> is_open c = false -> isConnected c = false.
Proof.
  intros W O. destruct (wf_parts c W) as (_ & _ & _ & _ & _ & _ & _ & WW).
  unfold is_open in O. destruct (ws c); [|now apply WW].
  destruct (isConnected c); [discriminate|reflexivity].
Qed.

Lemma silent_not_sent (m : Data) (l : list Effect) :
  ws_sends l = [] -> forall s, ~ In (WsSend s m true) l.
Proof.
  intros L s. induction l as [|e l IH]; [intros []|].
  intros [->|I]; [discriminate L|].
  apply IH; [|exact I]. destruct e; cbn in L; try discriminate; exact L.
Qed.

(** C7.  In any state the client can reach, [send(m, options)] on a
    connection that is not open leaves the socket, the connection flag and
    the log alone.  Unless [options.queue] is [false] the payload is appended
    to the queue and the promise is pending; whatever happens next, the
    promise is fulfilled only once [m] was handed to [ws.send] in a call that
    returned, and as long as no socket opens nothing is sent, the promise is
    not fulfilled and the payload stays queued.  With [options.queue] false
    the promise is rejected with "WebSocket is not connected" and the queue is
    unchanged. *)
Theorem send_while_not_open (c : Client) (m : Data) (queue : option bool) :
  reachable ws_send_throws c ->
  is_open c = false ->
  let p := List.length (promises c) in
  let c1 := snd (send ws_send_throws m queue c) in
  fst (send ws_send_throws m queue c) = p
  /\ ws c1 = ws c /\ isConnected c1 = isConnected c /\ log c1 = log c
  /\ if queue_enabled queue then
       messageQueue c1 =
         (messageQueue c ++ [{| message := m; completion := p |}])%list
       /\ promise_state p c1 = Pending
       /\ forall es : list Event,
            let c2 := run ws_send_throws es c1 in
            (is_fulfilled (promise_state p c2) = true ->
             sent_since m (List.length (log c)) c2)
            /\ (existsb is_socket_open es = false ->
                is_fulfilled (promise_state p c2) = false
                /\ ws_sends (skipn (List.length (log c)) (log c2)) = []
                /\ In {| message := m; completion := p |} (messageQueue c2))
     else
       messageQueue c1 = messageQueue c
       /\ promise_state p c1 = Rejected "WebSocket is not connected".
Proof.
  intros R O. pose proof (reachable_wf ws_send_throws c R) as W. cbn zeta.
  destruct (queue_enabled queue) eqn:Q.
  - pose proof (queued_send_is_owned c m queue W O Q) as OW.
    pose proof (queued_send_is_waiting c m queue O Q (closed_of_wf c W O)) as WT.
    rewrite (send_queues ws_send_throws m queue c O Q) in *. cbn [fst snd] in *.
    do 5 (split; [reflexivity|]).
    split; [unfold promise_state; cbn; now rewrite nth_fresh|].
    intros es. cbn zeta.
    pose proof (owned_run ws_send_throws _ _ _ es _ OW) as OW'.
    split.
    + intros F. exact (owned_fulfilled _ _ _ _ OW' F).
    + intros N.
      destruct (waiting_run ws_send_throws _ _ es _ N WT) as [_ _ L I].
      split; [|split; [exact L|exact I]].
      destruct (is_fulfilled _) eqn:F; [|reflexivity].
      destruct (owned_fulfilled _ _ _ _ OW' F) as [s S].
      destruct (silent_not_sent m _ L s S).
  - destruct queue as [[|]|]; try discriminate Q.
    unfold is_open in O. unfold send, new_promise.
    cbn [fst snd ws isConnected set_promises].
    assert (K : let r := (List.length (promises c),
                          reject (List.length (promises c))
                            "WebSocket is not connected"
                            (set_promises (promises c ++ [Pending]) c)) in
                fst r = List.length (promises c)
                /\ ws (snd r) = ws c /\ isConnected (snd r) = isConnected c
                /\ log (snd r) = log c
                /\ messageQueue (snd r) = messageQueue c
                /\ promise_state (List.length (promises c)) (snd r) =
                     Rejected "WebSocket is not connected").
    { cbn [fst snd]. autorewrite with settle. cbn. repeat split.
      unfold reject, promise_state. cbn. rewrite nth_fresh. cbn.
      rewrite nth_update_nth_same; [reflexivity|].
      rewrite length_app. cbn. lia. }
    destruct (ws c); [destruct (isConnected c); [discriminate O|]|]; exact K.
Qed.

End SendWhileClosed.

(** C7, at the first [send("A")] of a client that never connected, followed
    by a connection and the callback of the transmission. *)
Lemma send_while_not_open_example :
  let c := constructor default_options in
  let c1 := snd (send never_throws (Text "A") None c) in
  let c2 := run never_throws
              [Call_connect None; Socket_open 0; Send_callback 0 None] c1 in
  messageQueue c1 = [{| message := Text "A"; completion := 0 |}]
  /\ promise_state 0 c1 = Pending
  /\ promise_state 0 c2 = Fulfilled Undefined
  /\ sent_since (Text "A") 0 c2.
Proof.
  pose proof (send_while_not_open never_throws (constructor default_options)
                (Text "A") None new_client_reachable eq_refl) as H.
  cbv zeta in H. destruct H as (_ & _ & _ & _ & H).
  change (queue_enabled None) with true in H. cbv iota in H.
  destruct H as (H1 & H2 & H3).
  split; [exact H1|]. split; [exact H2|]. split; [vm_compute; reflexivity|].
  exact (proj1 (H3 [Call_connect None; Socket_open 0; Send_callback 0 None])
           eq_refl).
Defined.

End ClientFacts.
